(** * RainAlert: the flood-alert evaluation engine and the reading ingest path

    A shallow embedding of two route handlers of the application:

    - [app/api/evaluate-alert/route.js] ([Evaluate.POST]): reads the latest
      sensor reading, applies the distance thresholds, keeps the module-level
      [firstSafeDetectedAt] timer, inserts and caps flood alerts;
    - [app/api/flood/route.js] ([Ingest.POST]): validates a posted reading,
      stores it and inserts a flood alert from the status tag.

    Conventions of the model.
    - JavaScript numbers are exact rationals ([Q]); [toFixed(2)] rounds to
      the nearest hundredth, ties away from zero.
    - Timestamps are integers, in milliseconds; a handler receives one
      instant [now], which stands for every clock it reads while it runs
      ([new Date()] of the server and [NOW()] of the database).
    - Strings are byte strings; [toUpperCase] and [toLowerCase] act on the
      ASCII letters.
    - Every storage call may throw: the world carries the pending faults,
      one entry per storage call still to come ([None]: the call succeeds).
    - The table declarations are not part of the repository.  The model
      takes [id] as an auto-increment key, [sensor_readings.reading_time] as
      defaulting to the insertion time, the columns an INSERT omits as NULL,
      and keeps the collation of [flood_alerts.alert_level] as a field of
      the database.  Among rows with equal keys, ORDER BY keeps the table
      order. *)

From Stdlib Require Import ZArith QArith Qround Lqa Lia.
From Stdlib Require Import List Bool String Ascii.
From Stdlib Require Import Sorting.Sorted Sorting.Permutation.
From Stdlib Require DecimalString DecimalZ.
Import ListNotations.

Set Warnings "-register-all".

Local Open Scope Z_scope.

(** ** JavaScript numbers *)

Module Num.

Local Open Scope Q_scope.

(** [a > b]. *)
Definition gt (a b : Q) : bool := negb (Qle_bool a b).

(** [a <= b]. *)
Definition le (a b : Q) : bool := Qle_bool a b.

(** [a >= b]. *)
Definition ge (a b : Q) : bool := Qle_bool b a.

(** Nearest integer, ties away from zero: the digits
    [Number.prototype.toFixed] keeps of the scaled magnitude. *)
Definition round_half_away (x : Q) : Z :=
  if Qle_bool 0 x then Qfloor (x + (1 # 2))
  else (- Qfloor (- x + (1 # 2)))%Z.

(** [parseFloat(x.toFixed(2))]. *)
Definition toFixed2 (x : Q) : Q :=
  inject_Z (round_half_away (x * 100)) / 100.

(** [Math.ceil]. *)
Definition ceil (x : Q) : Z := Qceiling x.

(** An integer inside a template literal. *)
Definition show (n : Z) : string :=
  DecimalString.NilZero.string_of_int (Z.to_int n).

End Num.

(** ** JavaScript strings *)

Module Str.

Definition upper_ascii (c : ascii) : ascii :=
  let n := N_of_ascii c in
  if (97 <=? n)%N && (n <=? 122)%N then ascii_of_N (n - 32) else c.

Definition lower_ascii (c : ascii) : ascii :=
  let n := N_of_ascii c in
  if (65 <=? n)%N && (n <=? 90)%N then ascii_of_N (n + 32) else c.

Fixpoint map (f : ascii -> ascii) (s : string) : string :=
  match s with
  | EmptyString => EmptyString
  | String c s' => String (f c) (map f s')
  end.

Definition toUpperCase : string -> string := map upper_ascii.

Definition toLowerCase : string -> string := map lower_ascii.

End Str.

(** ** Severity thresholds of the evaluation engine *)

Module Severity.

Local Open Scope Q_scope.

Inductive band := Safe | Warning | Danger | Critical.

(** The level chosen by the threshold chain of the route, on the rounded
    distance; [None] is its final [else], "No flood alert triggered". *)
Definition alertLevel (distance : Q) : option string :=
  if Num.gt distance 60.96 && Num.le distance 76.2 then Some "Warning"%string
  else if Num.gt distance 30.48 && Num.le distance 60.96 then Some "Danger"%string
  else if Num.le distance 30.48 then Some "Critical"%string
  else None.

Definition band_of_level (l : option string) : band :=
  match l with
  | Some "Warning"%string => Warning
  | Some "Danger"%string => Danger
  | Some "Critical"%string => Critical
  | _ => Safe
  end.

(** The band the route puts a raw distance in: the safe test is made on the
    raw value, the three adverse tests on the rounded one. *)
Definition classify (d : Q) : band :=
  if Num.gt d 76.2 then Safe
  else band_of_level (alertLevel (Num.toFixed2 d)).

End Severity.

(** ** The MySQL store *)

Module SensorReading.

(** A row of [sensor_readings]. *)
Record t := mk {
  id : Z;
  distance : Q;
  flood_level : Q;
  status : string;
  reading_time : Z
}.

End SensorReading.

Module FloodAlert.

Inductive lifecycle := active | past.

Definition lifecycle_eqb (a b : lifecycle) : bool :=
  match a, b with
  | active, active | past, past => true
  | _, _ => false
  end.

(** A row of [flood_alerts]; [None] is NULL. *)
Record t := mk {
  id : Z;
  alert_level : string;
  message : string;
  status : lifecycle;
  distance : option Q;
  flood_level : option Q;
  reading_time : option Z;
  created_at : Z;
  updated_at : option Z
}.

Definition set_status (s : lifecycle) (a : t) : t :=
  mk (id a) (alert_level a) (message a) s (distance a) (flood_level a)
     (reading_time a) (created_at a) (updated_at a).

Definition is_active (a : t) : bool := lifecycle_eqb (status a) active.

End FloodAlert.

Module Sql.

(** Comparison of two strings under the collation of a column. *)
Inductive collation := binary | case_insensitive.

Definition str_eq (c : collation) (a b : string) : bool :=
  match c with
  | binary => String.eqb a b
  | case_insensitive => String.eqb (Str.toLowerCase a) (Str.toLowerCase b)
  end.

(** [column = ?] on a nullable column: NULL is equal to nothing. *)
Definition eq_param (column : option Z) (param : Z) : bool :=
  match column with
  | Some v => v =? param
  | None => false
  end.

(** [ORDER BY key DESC], keeping the table order among equal keys. *)
Fixpoint insert_desc {A : Type} (key : A -> Z) (x : A) (l : list A) : list A :=
  match l with
  | [] => [x]
  | y :: l' => if key y <=? key x then x :: l else y :: insert_desc key x l'
  end.

Definition order_by_desc {A : Type} (key : A -> Z) (l : list A) : list A :=
  fold_right (insert_desc key) [] l.

Record Db := mkDb {
  sensor_readings : list SensorReading.t;
  flood_alerts : list FloodAlert.t;
  sensor_readings_auto_increment : Z;
  flood_alerts_auto_increment : Z;
  alert_level_collation : collation
}.

Definition set_flood_alerts (l : list FloodAlert.t) (d : Db) : Db :=
  mkDb (sensor_readings d) l (sensor_readings_auto_increment d)
       (flood_alerts_auto_increment d) (alert_level_collation d).

(** [SELECT * FROM sensor_readings ORDER BY reading_time DESC LIMIT 1] *)
Definition select_latest_reading (d : Db) : list SensorReading.t :=
  firstn 1 (order_by_desc SensorReading.reading_time (sensor_readings d)).

(** [UPDATE flood_alerts SET status = 'past' WHERE status = 'active'] *)
Definition update_active_to_past (d : Db) : Db :=
  set_flood_alerts
    (List.map (fun a => if FloodAlert.is_active a
                        then FloodAlert.set_status FloodAlert.past a else a)
              (flood_alerts d)) d.

(** The WHERE clause [reading_time = ? AND alert_level = ?]. *)
Definition duplicate_match (c : collation) (reading_time : Z)
  (alertLevel : string) (a : FloodAlert.t) : bool :=
  eq_param (FloodAlert.reading_time a) reading_time
  && str_eq c (FloodAlert.alert_level a) alertLevel.

(** [SELECT * FROM flood_alerts WHERE reading_time = ? AND alert_level = ?] *)
Definition select_duplicate (reading_time : Z) (alertLevel : string) (d : Db)
  : list FloodAlert.t :=
  filter (duplicate_match (alert_level_collation d) reading_time alertLevel)
         (flood_alerts d).

(** [INSERT INTO flood_alerts (...) VALUES (...)]: the row gets the next
    auto-increment id and is appended to the table. *)
Definition insert_alert (alert_level message : string)
  (status : FloodAlert.lifecycle) (distance flood_level : option Q)
  (reading_time : option Z) (created_at : Z) (updated_at : option Z) (d : Db)
  : Db :=
  mkDb (sensor_readings d)
       (flood_alerts d ++
        [FloodAlert.mk (flood_alerts_auto_increment d) alert_level message
           status distance flood_level reading_time created_at updated_at])
       (sensor_readings_auto_increment d)
       (flood_alerts_auto_increment d + 1)
       (alert_level_collation d).

(** [SELECT id FROM flood_alerts WHERE status = 'active'
     ORDER BY created_at DESC] *)
Definition select_active_ids (d : Db) : list Z :=
  List.map FloodAlert.id
    (order_by_desc FloodAlert.created_at
       (filter FloodAlert.is_active (flood_alerts d))).

(** [UPDATE flood_alerts SET status = 'past'
     WHERE status = 'active' AND id NOT IN (?, ?)] *)
Definition update_past_not_in (idsToKeep : list Z) (d : Db) : Db :=
  set_flood_alerts
    (List.map (fun a =>
                 if FloodAlert.is_active a
                    && negb (existsb (Z.eqb (FloodAlert.id a)) idsToKeep)
                 then FloodAlert.set_status FloodAlert.past a else a)
              (flood_alerts d)) d.

(** [INSERT INTO sensor_readings (distance, flood_level, status)
     VALUES (?, ?, ?)], returning [insertId]. *)
Definition insert_reading (distance flood_level : Q) (status : string)
  (now : Z) (d : Db) : Z * Db :=
  (sensor_readings_auto_increment d,
   mkDb (sensor_readings d ++
         [SensorReading.mk (sensor_readings_auto_increment d) distance
            flood_level status now])
        (flood_alerts d)
        (sensor_readings_auto_increment d + 1)
        (flood_alerts_auto_increment d)
        (alert_level_collation d)).

End Sql.

(** ** The server process: store, module state, pending faults *)

Record World := mkWorld {
  db : Sql.Db;
  firstSafeDetectedAt : option Z;
  faults : list (option string)
}.

(** An [async] computation either returns or throws an error with a
    message; what it did to the world before throwing stays done. *)
Inductive outcome (A : Type) :=
| Return (a : A)
| Throw (error_message : string).

Arguments Return {A} a.
Arguments Throw {A} error_message.

Definition M (A : Type) : Type := World -> outcome A * World.

Definition ret {A : Type} (a : A) : M A := fun w => (Return a, w).

Definition throw {A : Type} (e : string) : M A := fun w => (Throw e, w).

Definition bind {A B : Type} (m : M A) (k : A -> M B) : M B :=
  fun w =>
    match m w with
    | (Return a, w') => k a w'
    | (Throw e, w') => (Throw e, w')
    end.

Definition try_catch {A : Type} (body : M A) (handler : string -> M A) : M A :=
  fun w =>
    match body w with
    | (Return a, w') => (Return a, w')
    | (Throw e, w') => handler e w'
    end.

Declare Scope js_scope.
Delimit Scope js_scope with js.

Notation "x <- m ;; k" := (bind m (fun x => k))
  (at level 100, m at next level, right associativity) : js_scope.
Notation "m ;;; k" := (bind m (fun _ => k))
  (at level 100, right associativity) : js_scope.

(** [await pool.query(...)] / [await connection.execute(...)]: consumes
    the next pending fault; a failing call leaves the store as it was. *)
Definition storage_call {A : Type} (op : Sql.Db -> A * Sql.Db) : M A :=
  fun w =>
    match hd None (faults w) with
    | Some e => (Throw e, mkWorld (db w) (firstSafeDetectedAt w) (tl (faults w)))
    | None =>
        (Return (fst (op (db w))),
         mkWorld (snd (op (db w))) (firstSafeDetectedAt w) (tl (faults w)))
    end.

Definition query {A : Type} (q : Sql.Db -> A) : M A :=
  storage_call (fun d => (q d, d)).

Definition execute (u : Sql.Db -> Sql.Db) : M unit :=
  storage_call (fun d => (tt, u d)).

Definition get_firstSafeDetectedAt : M (option Z) :=
  fun w => (Return (firstSafeDetectedAt w), w).

Definition set_firstSafeDetectedAt (v : option Z) : M unit :=
  fun w => (Return tt, mkWorld (db w) v (faults w)).

(** ** HTTP responses *)

Module Response.

Record received := mkReceived {
  id : Z;
  distance : Q;
  floodLevel : Q;
  status : string;
  timestamp : Z
}.

Record t := mk {
  http_status : Z;
  success : bool;
  message : string;
  error : option string;
  receivedData : option received
}.

(** [NextResponse.json({ success, message })]: no status given, so 200. *)
Definition json (success : bool) (message : string) : t :=
  mk 200 success message None None.

End Response.

(** ** [app/api/evaluate-alert/route.js] *)

Module Evaluate.

Local Open Scope js_scope.
Local Open Scope string_scope.

(** The INSERT of the route, with the values it binds. *)
Definition insert_new_alert (alertLevel : string)
  (latestSensorData : SensorReading.t) (now : Z) : Sql.Db -> Sql.Db :=
  Sql.insert_alert alertLevel (alertLevel ++ " flood level detected.")
    FloodAlert.active
    (Some (SensorReading.distance latestSensorData))
    (Some (SensorReading.flood_level latestSensorData))
    (Some (SensorReading.reading_time latestSensorData))
    now None.

(** The body of the [try] block of [POST]. *)
Definition POST_body (now : Z) : M Response.t :=
  rows <- query Sql.select_latest_reading ;;
  match rows with
  | [] => ret (Response.json false "No sensor data found.")
  | latestSensorData :: _ =>
    if Num.gt (SensorReading.distance latestSensorData) 76.2 then
      first <- get_firstSafeDetectedAt ;;
      match first with
      | None =>
          set_firstSafeDetectedAt (Some now) ;;;
          ret (Response.json true
                 "Water is safe. Waiting for grace period to confirm.")
      | Some t0 =>
          let elapsedTime := (inject_Z (now - t0) / 1000)%Q in
          if Num.ge elapsedTime 300 then
            execute Sql.update_active_to_past ;;;
            set_firstSafeDetectedAt None ;;;
            ret (Response.json true
                   "Water level has been safe for 5 minutes. Alerts marked as past.")
          else
            ret (Response.json true
                   ("Water is safe. "
                    ++ Num.show (Num.ceil (300 - elapsedTime)%Q)
                    ++ " seconds remaining to confirm."))
      end
    else
      set_firstSafeDetectedAt None ;;;
      let distance := Num.toFixed2 (SensorReading.distance latestSensorData) in
      match Severity.alertLevel distance with
      | None =>
          ret (Response.json true
                 "No flood alert triggered. Water level is safe.")
      | Some alertLevel =>
          existingAlert <-
            query (Sql.select_duplicate
                     (SensorReading.reading_time latestSensorData) alertLevel) ;;
          if (0 <? List.length existingAlert)%nat then
            ret (Response.json true
                   "Duplicate alert already exists. Skipping insertion.")
          else
            execute (insert_new_alert alertLevel latestSensorData now) ;;;
            activeAlerts <- query Sql.select_active_ids ;;
            if (2 <? List.length activeAlerts)%nat then
              let idsToKeep := firstn 2 activeAlerts in
              execute (Sql.update_past_not_in idsToKeep) ;;;
              ret (Response.json true
                     "New alert recorded. Older alerts marked as past.")
            else
              ret (Response.json true "Flood alert recorded successfully.")
      end
  end.

Definition POST (now : Z) : M Response.t :=
  try_catch (POST_body now)
    (fun _ => ret (Response.json false "Error evaluating flood alert.")).

End Evaluate.

(** ** [app/api/flood/route.js] *)

Module Json.

(** A parsed request body. *)
Inductive value :=
| null
| boolean (b : bool)
| number (n : Q)
| str (s : string)
| array (items : list value)
| object (fields : list (string * value)).

(** Property lookup on an object literal: the last occurrence of a
    repeated key is the one [JSON.parse] keeps. *)
Fixpoint lookup (key : string) (fields : list (string * value)) : option value :=
  match fields with
  | [] => None
  | (k, v) :: rest =>
      match lookup key rest with
      | Some v' => Some v'
      | None => if String.eqb k key then Some v else None
      end
  end.

(** [const { distance, floodLevel, status } = parsedData]: destructuring
    [null] throws; a property that is absent, or any property of a
    non-object, is [undefined] ([None]). *)
Definition destructure (parsedData : value)
  : outcome (option value * option value * option value) :=
  match parsedData with
  | null =>
      Throw "Cannot destructure property 'distance' of 'parsedData' as it is null."
  | object fields =>
      Return (lookup "distance" fields, lookup "floodLevel" fields,
              lookup "status" fields)
  | _ => Return (None, None, None)
  end.

End Json.

Module Ingest.

Local Open Scope js_scope.
Local Open Scope string_scope.

Definition invalid_json (error_message : string) : Response.t :=
  Response.mk 400 false "Invalid JSON format in request body."
    (Some error_message) None.

Definition invalid_data : Response.t :=
  Response.mk 400 false
    "Missing or invalid sensor data. Expected: number (distance), number (floodLevel), string (status)."
    None None.

Definition server_error (error_message : string) : Response.t :=
  Response.mk 500 false "Internal Server Error during data processing."
    (Some error_message) None.

Definition stored (insertId : Z) (distance floodLevel : Q) (status : string)
  (now : Z) : Response.t :=
  Response.mk 200 true "✅ Sensor data successfully stored in the database."
    None (Some (Response.mkReceived insertId distance floodLevel status now)).

(** A request body with the three fields, of the expected types. *)
Definition reading_body (distance floodLevel : Q) (status : string)
  : outcome Json.value :=
  Return (Json.object [("distance", Json.number distance);
                       ("floodLevel", Json.number floodLevel);
                       ("status", Json.str status)]).

(** The test that guards the alert insertion. *)
Definition is_adverse_tag (status : string) : bool :=
  String.eqb (Str.toUpperCase status) "WARNING"
  || String.eqb (Str.toUpperCase status) "DANGER"
  || String.eqb (Str.toUpperCase status) "CRITICAL".

Definition alert_message (status : string) : string :=
  if String.eqb (Str.toUpperCase status) "WARNING"
  then "Warning: Rising Water Level."
  else if String.eqb (Str.toUpperCase status) "DANGER"
  then "Danger: High Water Level!"
  else if String.eqb (Str.toUpperCase status) "CRITICAL"
  then "Critical Flood Level! Immediate action required."
  else "".

(** The second [try] block, after validation. *)
Definition store_reading (distance floodLevel : Q) (status : string)
  (now : Z) : M Response.t :=
  try_catch
    (storage_call (fun d => (tt, d)) ;;;
     insertId <- storage_call (Sql.insert_reading distance floodLevel status now) ;;
     (if is_adverse_tag status then
        let alertLevel := Str.toLowerCase status in
        let message := alert_message status in
        execute (Sql.insert_alert alertLevel message FloodAlert.active
                   None None None now (Some now))
      else ret tt) ;;;
     ret (stored insertId distance floodLevel status now))
    (fun error_message => ret (server_error error_message)).

(** [POST]: [request_json] is the outcome of [await request.json()]; the
    three [typeof] tests are the patterns of the well-typed case. *)
Definition POST (now : Z) (request_json : outcome Json.value) : M Response.t :=
  match request_json with
  | Throw error_message => ret (invalid_json error_message)
  | Return parsedData =>
      match Json.destructure parsedData with
      | Throw e => throw e
      | Return (Some (Json.number distance), Some (Json.number floodLevel),
                Some (Json.str status)) =>
          store_reading distance floodLevel status now
      | Return _ => ret invalid_data
      end
  end.

End Ingest.

(** ** Vocabulary of the statements *)

(** Every stored reading is older than [t]. *)
Definition older_than (t : Z) (d : Sql.Db) : Prop :=
  forall x, In x (Sql.sensor_readings d) -> SensorReading.reading_time x < t.

(** A row-wise update that at most turns a status into [past]. *)
Definition demotion (g : FloodAlert.t -> FloodAlert.t) : Prop :=
  forall a, g a = a \/ g a = FloodAlert.set_status FloodAlert.past a.

(** The rows a handler appended to [flood_alerts]. *)
Definition appended (before after : Sql.Db) : list FloodAlert.t :=
  skipn (List.length (Sql.flood_alerts before)) (Sql.flood_alerts after).

(** What one evaluation cycle can do to [flood_alerts]: demote rows, after
    having appended at most the alert of an adverse latest reading. *)
Inductive alerts_step (d : Sql.Db) (now : Z) : list FloodAlert.t -> Prop :=
| step_demote (g : FloodAlert.t -> FloodAlert.t) :
    demotion g ->
    alerts_step d now (List.map g (Sql.flood_alerts d))
| step_insert (g : FloodAlert.t -> FloodAlert.t) (r : SensorReading.t)
    (rest : list SensorReading.t) (l : string) :
    Sql.select_latest_reading d = r :: rest ->
    Num.gt (SensorReading.distance r) 76.2 = false ->
    Severity.alertLevel (Num.toFixed2 (SensorReading.distance r)) = Some l ->
    demotion g ->
    alerts_step d now
      (List.map g (Sql.flood_alerts (Evaluate.insert_new_alert l r now d))).

(** The number of active alerts. *)
Definition active_count (d : Sql.Db) : nat :=
  List.length (filter FloodAlert.is_active (Sql.flood_alerts d)).

(** The ids of the table are pairwise distinct and below the counter. *)
Definition ids_fresh (d : Sql.Db) : Prop :=
  NoDup (List.map FloodAlert.id (Sql.flood_alerts d))
  /\ forall a, In a (Sql.flood_alerts d) ->
               FloodAlert.id a < Sql.flood_alerts_auto_increment d.

(** The three fields are present with the expected types. *)
Definition well_typed (parsedData : Json.value) (distance floodLevel : Q)
  (status : string) : Prop :=
  Json.destructure parsedData =
    Return (Some (Json.number distance), Some (Json.number floodLevel),
            Some (Json.str status)).

(** A store with no rows. *)
Definition empty_db (c : Sql.collation) : Sql.Db := Sql.mkDb [] [] 1 1 c.

(** The row is spared by [id NOT IN (...)]. *)
Definition kept (idsToKeep : list Z) (a : FloodAlert.t) : bool :=
  existsb (Z.eqb (FloodAlert.id a)) idsToKeep.

(** The order of the rows of [ORDER BY key DESC]. *)
Definition desc_by {A : Type} (key : A -> Z) (x y : A) : Prop := key y <= key x.

(** ** Sample data *)

Definition sample_reading (distance : Q) (reading_time : Z) : SensorReading.t :=
  SensorReading.mk 1 distance 12.5 "TAG" reading_time.

(** A store with one reading and no alert, a timer and pending faults. *)
Definition sample_world (distance : Q) (timer : option Z)
  (pending : list (option string)) : World :=
  mkWorld (Sql.mkDb [sample_reading distance 0] [] 2 1 Sql.case_insensitive)
          timer pending.



(** ** [app/api/current-sensor-data/route.js] *)

Module CurrentSensorData.

Local Open Scope js_scope.
Local Open Scope string_scope.

Definition CM_TO_FEET_FACTOR : Q := (1 / 30.48)%Q.

(** The columns of the SELECT, as the handler returns them; [None] is
    [null]. *)
Record reading := mkReading {
  distance : option Q;
  flood_level : option Q;
  status : string;
  reading_time : option Z
}.

Record response := mkResponse {
  http_status : Z;
  success : bool;
  message : string;
  error : option string;
  data : option reading
}.

(** [SELECT distance, flood_level, status, reading_time FROM sensor_readings
     ORDER BY reading_time DESC LIMIT 1] *)
Definition select_latest_columns (d : Sql.Db) : list reading :=
  List.map (fun r => mkReading (Some (SensorReading.distance r))
                       (Some (SensorReading.flood_level r))
                       (SensorReading.status r)
                       (Some (SensorReading.reading_time r)))
           (Sql.select_latest_reading d).

(** The record used when the table is empty. *)
Definition no_data : reading := mkReading None None "No Data" None.

(** [parseFloat((x * CM_TO_FEET_FACTOR).toFixed(2))], applied when [x] is
    not [null]. *)
Definition to_feet (x : option Q) : option Q :=
  match x with
  | Some v => Some (Num.toFixed2 (v * CM_TO_FEET_FACTOR))
  | None => None
  end.

Definition GET : M response :=
  try_catch
    (storage_call (fun d => (tt, d)) ;;;
     rows <- query select_latest_columns ;;
     let latestData := match rows with r :: _ => r | [] => no_data end in
     ret (mkResponse 200 true "Latest sensor data retrieved." None
            (Some (mkReading (to_feet (distance latestData))
                             (to_feet (flood_level latestData))
                             (status latestData)
                             (reading_time latestData)))))
    (fun error_message =>
       ret (mkResponse 500 false
              "Internal Server Error during data retrieval."
              (Some error_message) None)).

End CurrentSensorData.

(** ** [app/api/flood_alerts/route.js] *)

Module FloodAlertsRoute.

Local Open Scope js_scope.
Local Open Scope string_scope.

Record response := mkResponse {
  http_status : Z;
  success : bool;
  data : option (list FloodAlert.t);
  error : option string
}.

(** [if (since)]: a query parameter counts when present and not empty. *)
Definition truthy (since : option string) : bool :=
  match since with
  | Some s => negb (String.eqb s "")
  | None => false
  end.

Section Listing.

(** The test [created_at > ?] of the database, for the string the handler
    binds. *)
Variable created_after : string -> Z -> bool.

(** [SELECT * FROM flood_alerts ORDER BY created_at DESC] *)
Definition select_all (d : Sql.Db) : list FloodAlert.t :=
  Sql.order_by_desc FloodAlert.created_at (Sql.flood_alerts d).

(** [SELECT * FROM flood_alerts WHERE created_at > ?
     ORDER BY created_at DESC] *)
Definition select_since (since : string) (d : Sql.Db) : list FloodAlert.t :=
  Sql.order_by_desc FloodAlert.created_at
    (filter (fun a => created_after since (FloodAlert.created_at a))
            (Sql.flood_alerts d)).

Definition GET (since : option string) : M response :=
  try_catch
    (rows <- query (match since with
                    | Some s => if truthy since then select_since s
                                else select_all
                    | None => select_all
                    end) ;;
     ret (mkResponse 200 true (Some rows) None))
    (fun _ =>
       ret (mkResponse 500 false None (Some "Failed to fetch flood alerts"))).

End Listing.

End FloodAlertsRoute.

(** ** The alerts table of the dashboard ([FloodAlertsTable]) *)

Module FloodAlertsTable.

Local Open Scope string_scope.


(** The state of the component that the polling touches. *)
Record state := mkState {
  alerts : list FloodAlert.t;
  loading : bool;
  error : option string
}.

Definition initial : state := mkState [] true None.

Section Polling.

Variable created_after : string -> Z -> bool.

(** [fetchAlerts]: [network] is the error of a [fetch] that is rejected
    before the server answers. *)
Definition fetchAlerts (network : option string) (s : state)
  : World -> state * World :=
  fun w =>
    match network with
    | Some _ =>
        (mkState (alerts s) false (Some "Failed to fetch flood alerts."), w)
    | None =>
        match FloodAlertsRoute.GET created_after None w with
        | (Return response, w') =>
            match FloodAlertsRoute.success response,
                  FloodAlertsRoute.data response with
            | true, Some rows => (mkState rows false (error s), w')
            | _, _ =>
                (mkState (alerts s) false
                   (Some "Unexpected API response format."), w')
            end
        | (Throw _, w') =>
            (mkState (alerts s) false (Some "Failed to fetch flood alerts."),
             w')
        end
    end.

End Polling.

(** What the component renders. *)
Inductive view :=
| Loading
| Failed (message : string)
| Table (activeAlerts pastAlerts : list FloodAlert.t).

Definition render (s : state) : view :=
  if loading s then Loading
  else
    match error s with
    | Some message =>
        if String.eqb message "" then
          Table (filter FloodAlert.is_active (alerts s))
                (filter (fun a => negb (FloodAlert.is_active a)) (alerts s))
        else Failed message
    | None =>
        Table (filter FloodAlert.is_active (alerts s))
              (filter (fun a => negb (FloodAlert.is_active a)) (alerts s))
    end.

End FloodAlertsTable.

(** ** [lib/getTableData.js] and [fetchCurrentSensorData] of [AlertForm.js] *)

Module TableData.

Local Open Scope js_scope.
Local Open Scope string_scope.

(** [response.ok] *)
Definition ok (http_status : Z) : bool :=
  ((200 <=? http_status) && (http_status <=? 299))%Z.

(** [getLatestSensorDisplayData] *)
Definition getLatestSensorDisplayData (network : option string)
  : M (option CurrentSensorData.reading) :=
  try_catch
    (match network with
     | Some e => throw e
     | None =>
         response <- CurrentSensorData.GET ;;
         if negb (ok (CurrentSensorData.http_status response)) then ret None
         else
           match CurrentSensorData.success response,
                 CurrentSensorData.data response with
           | true, Some data => ret (Some data)
           | _, _ => ret None
           end
     end)
    (fun error_message =>
       throw ("Failed to retrieve sensor data: " ++ error_message)).

(** [evaluateAndRecordFloodAlert] *)
Definition evaluateAndRecordFloodAlert (network : option string) (now : Z)
  : M Response.t :=
  try_catch
    (match network with
     | Some e => throw e
     | None =>
         result <- Evaluate.POST now ;;
         if Response.success result then ret result
         else throw ("Evaluation failed: " ++ Response.message result)
     end)
    (fun error_message =>
       throw ("Could not evaluate flood alert: " ++ error_message)).

(** [a || b] on strings. *)
Definition or_else (a b : string) : string :=
  if String.eqb a "" then b else a.

(** [fetchCurrentSensorData] *)
Definition fetchCurrentSensorData (network : option string)
  : M (option CurrentSensorData.reading) :=
  try_catch
    (match network with
     | Some e => throw e
     | None =>
         res <- CurrentSensorData.GET ;;
         if negb (ok (CurrentSensorData.http_status res)) then
           throw (or_else (CurrentSensorData.message res)
                          "Failed to fetch current data.")
         else
           match CurrentSensorData.success res,
                 CurrentSensorData.data res with
           | true, Some data => ret (Some data)
           | _, _ =>
               throw (or_else (CurrentSensorData.message res)
                        "API returned an unexpected structure for GET sensor data.")
           end
     end)
    (fun _ => ret None).

End TableData.

(** ** [GET] of [app/api/flood/route.js] and the analytics page *)

Module FloodRecord.

(** The columns of [flood_records] that the application reads. *)
Record t := mk {
  year : Z;
  month : Z;
  barangay : string;
  flood_depth_m : Q
}.

End FloodRecord.

Module FloodRecords.

Local Open Scope js_scope.
Local Open Scope string_scope.

Inductive response :=
| rows (http_status : Z) (body : list FloodRecord.t)
| failure (http_status : Z) (error : string).

(** The row [a] is not after [b] under [year ASC, month ASC]. *)
Definition not_after (a b : FloodRecord.t) : bool :=
  ((FloodRecord.year a <? FloodRecord.year b)
   || ((FloodRecord.year a =? FloodRecord.year b)
       && (FloodRecord.month a <=? FloodRecord.month b)))%Z.

Fixpoint insert_asc (x : FloodRecord.t) (l : list FloodRecord.t)
  : list FloodRecord.t :=
  match l with
  | [] => [x]
  | y :: l' => if not_after x y then x :: l else y :: insert_asc x l'
  end.

(** [SELECT * FROM flood_records ORDER BY year ASC, month ASC], the table
    order kept among equal keys. *)
Definition select_ordered (flood_records : list FloodRecord.t)
  : list FloodRecord.t :=
  fold_right insert_asc [] flood_records.

(** [GET]; no handler of the application writes [flood_records], so the
    table is an argument. *)
Definition GET (flood_records : list FloodRecord.t) : M response :=
  try_catch
    (body <- query (fun _ => select_ordered flood_records) ;;
     ret (rows 200 body))
    (fun _ => ret (failure 500 "Internal Server Error")).

End FloodRecords.

Module FloodAnalytics.

Local Open Scope string_scope.

Definition monthNames : list string :=
  ["January"; "February"; "March"; "April"; "May"; "June"; "July";
   "August"; "September"; "October"; "November"; "December"].

(** The effect that loads [floodData]: a rejected request (an error status
    included) leaves the initial empty array. *)
Definition loadFloodData (network : option string)
  (flood_records : list FloodRecord.t) : World -> list FloodRecord.t * World :=
  fun w =>
    match network with
    | Some _ => ([], w)
    | None =>
        match FloodRecords.GET flood_records w with
        | (Return (FloodRecords.rows _ body), w') => (body, w')
        | (_, w') => ([], w')
        end
    end.

(** [floodData.filter(item => item.year.toString() === selectedYear)] *)
Definition filteredData (selectedYear : string)
  (floodData : list FloodRecord.t) : list FloodRecord.t :=
  filter (fun item => String.eqb (Num.show (FloodRecord.year item)) selectedYear)
         floodData.

(** [monthNames[month - 1]] inside a template literal. *)
Definition monthLabel (month : Z) : string :=
  if ((1 <=? month) && (month <=? 12))%Z
  then nth (Z.to_nat (month - 1)) monthNames "undefined"
  else "undefined".

Definition chartLabels (filtered : list FloodRecord.t) : list string :=
  List.map (fun item => monthLabel (FloodRecord.month item)) filtered.

Definition waterLevels (filtered : list FloodRecord.t) : list Q :=
  List.map FloodRecord.flood_depth_m filtered.

(** The month after [currentMonth] (1 to 12). *)
Definition nextMonth (currentMonth : Z) : Z :=
  if (currentMonth =? 12)%Z then 1 else currentMonth + 1.

Definition allNextMonthData (currentMonth : Z)
  (floodData : list FloodRecord.t) : list FloodRecord.t :=
  filter (fun item => ((FloodRecord.month item =? nextMonth currentMonth)
                       && negb (FloodRecord.year item =? 2025))%Z)
         floodData.

Definition sumLevels (data : list FloodRecord.t) : Q :=
  fold_left (fun sum item => (sum + FloodRecord.flood_depth_m item)%Q) data 0%Q.

(** [Math.min] *)
Definition min (a b : Q) : Q := if Num.le a b then a else b.

(** [(confidenceLevel, floodRiskLevel)] of the prediction. *)
Definition prediction (currentMonth : Z) (floodData : list FloodRecord.t)
  : string * string :=
  let data := allNextMonthData currentMonth floodData in
  if (0 <? List.length data)%nat then
    let n := inject_Z (Z.of_nat (List.length data)) in
    let predictedFloodLevel := (sumLevels data / n)%Q in
    let confidence := min ((n / 5) * 100)%Q 95%Q in
    (Num.show (Num.round_half_away confidence),
     if Num.ge predictedFloodLevel 0.7 then "High"
     else if Num.ge predictedFloodLevel 0.4 then "Moderate"
     else "Low")
  else ("No data", "No data").

End FloodAnalytics.

(** ** More vocabulary *)

(** How severe a band is. *)
Definition rank (b : Severity.band) : Z :=
  match b with
  | Severity.Safe => 0
  | Severity.Warning => 1
  | Severity.Danger => 2
  | Severity.Critical => 3
  end.

(** Same row, the status apart. *)
Definition same_columns (a b : FloodAlert.t) : Prop :=
  FloodAlert.set_status FloodAlert.past a = FloodAlert.set_status FloodAlert.past b.

(** What happens at the server, in order. *)
Inductive event :=
| Posted (now : Z) (request_json : outcome Json.value)
| Evaluated (now : Z).

Definition step (e : event) (w : World) : World :=
  match e with
  | Posted now request_json => snd (Ingest.POST now request_json w)
  | Evaluated now => snd (Evaluate.POST now w)
  end.

Definition run (trace : list event) (w : World) : World :=
  fold_left (fun w e => step e w) trace w.


(** The table [after] still holds every row of [before], at its place and
    with its columns, and no row that was [past] is active again. *)
Definition evolves (before after : list FloodAlert.t) : Prop :=
  forall i a,
    nth_error before i = Some a ->
    exists a',
      nth_error after i = Some a'
      /\ same_columns a a'
      /\ (FloodAlert.status a = FloodAlert.past ->
          FloodAlert.status a' = FloodAlert.past).

(** * Properties *)

(** ** Numbers and thresholds *)

Section NumFacts.

Local Open Scope Q_scope.

Lemma gt_spec (a b : Q) : Num.gt a b = true <-> b < a.
Proof.
  unfold Num.gt. rewrite negb_true_iff. split; intro H.
  - apply Qnot_le_lt. intro L. apply Qle_bool_iff in L. congruence.
  - destruct (Qle_bool a b) eqn:E; [|reflexivity].
    apply Qle_bool_iff in E. exfalso. apply (Qlt_not_le _ _ H E).
Qed.

Lemma gt_false (a b : Q) : Num.gt a b = false <-> a <= b.
Proof. unfold Num.gt. rewrite negb_false_iff. apply Qle_bool_iff. Qed.

Lemma le_negb_gt (a b : Q) : Num.le a b = negb (Num.gt a b).
Proof. unfold Num.le, Num.gt. now rewrite negb_involutive. Qed.

Lemma le_spec (a b : Q) : Num.le a b = true <-> a <= b.
Proof. apply Qle_bool_iff. Qed.

Lemma ge_spec (a b : Q) : Num.ge a b = true <-> b <= a.
Proof. apply Qle_bool_iff. Qed.

Lemma ge_false (a b : Q) : Num.ge a b = false <-> a < b.
Proof.
  unfold Num.ge. split; intro H.
  - apply Qnot_le_lt. intro L. apply Qle_bool_iff in L. congruence.
  - destruct (Qle_bool b a) eqn:E; [|reflexivity].
    apply Qle_bool_iff in E. exfalso. apply (Qlt_not_le _ _ H E).
Qed.

Lemma floor_ge_iff (k : Z) (x : Q) : (k <= Qfloor x)%Z <-> inject_Z k <= x.
Proof.
  split; intro H.
  - apply Qle_trans with (inject_Z (Qfloor x)).
    + rewrite <- Zle_Qle. exact H.
    + apply Qfloor_le.
  - rewrite <- (Qfloor_Z k). apply Qfloor_resp_le. exact H.
Qed.

(** The rounded integer exceeds [k >= 0] exactly from [k + 1/2] on. *)
Lemma round_half_away_gt_iff (k : Z) (x : Q) :
  (0 <= k)%Z ->
  ((k < Num.round_half_away x)%Z <-> inject_Z k + (1 # 2) <= x).
Proof.
  intro Hk. unfold Num.round_half_away.
  destruct (Qle_bool 0 x) eqn:E.
  - assert ((k < Qfloor (x + (1 # 2)))%Z
            <-> (k + 1 <= Qfloor (x + (1 # 2)))%Z) as -> by lia.
    rewrite floor_ge_iff, inject_Z_plus. change (inject_Z 1) with 1.
    split; intro; lra.
  - assert (x < 0) as Hx.
    { apply Qnot_le_lt. intro L. apply Qle_bool_iff in L. congruence. }
    assert (0 <= Qfloor (- x + (1 # 2)))%Z as Hf.
    { apply floor_ge_iff. change (inject_Z 0) with 0. lra. }
    assert (0 <= inject_Z k) as Hk'.
    { change 0 with (inject_Z 0). rewrite <- Zle_Qle. exact Hk. }
    split; intro H; [lia | lra].
Qed.

(** A threshold [c] with two decimals is exceeded by the rounded distance
    exactly when the raw distance reaches [c + 0.005]. *)
Lemma toFixed2_gt_iff (k : Z) (c d : Q) :
  (0 <= k)%Z -> c == inject_Z k / 100 ->
  (Num.gt (Num.toFixed2 d) c = true <-> c + (1 # 200) <= d).
Proof.
  intros Hk Hc. rewrite gt_spec. unfold Num.toFixed2.
  set (n := Num.round_half_away (d * 100)).
  assert (c < inject_Z n / 100 <-> (k < n)%Z) as ->.
  { rewrite Zlt_Qlt, Hc. unfold Qdiv. change (/ 100) with (1 # 100).
    split; intro; lra. }
  unfold n. rewrite (round_half_away_gt_iff k (d * 100) Hk), Hc.
  unfold Qdiv. change (/ 100) with (1 # 100). split; intro; lra.
Qed.

Lemma toFixed2_gt_false_iff (k : Z) (c d : Q) :
  (0 <= k)%Z -> c == inject_Z k / 100 ->
  (Num.gt (Num.toFixed2 d) c = false <-> d < c + (1 # 200)).
Proof.
  intros Hk Hc. pose proof (toFixed2_gt_iff k c d Hk Hc) as H.
  destruct (Num.gt _ _).
  - split; [discriminate|]. intro L. exfalso.
    apply (Qlt_not_le _ _ L). now apply H.
  - split; [|reflexivity]. intros _. apply Qnot_le_lt. intro L.
    apply H in L. discriminate.
Qed.

(** Below the safe threshold, the threshold chain on the rounded distance
    amounts to two tests on the raw distance; its final [else] is dead. *)
Lemma alertLevel_toFixed2 (d : Q) :
  d <= 76.2 ->
  Severity.alertLevel (Num.toFixed2 d) =
    if Qle_bool 60.965 d then Some "Warning"%string
    else if Qle_bool 30.485 d then Some "Danger"%string
    else Some "Critical"%string.
Proof.
  intro Hd. unfold Severity.alertLevel.
  rewrite !(le_negb_gt (Num.toFixed2 d)).
  pose proof (toFixed2_gt_false_iff 7620 76.2 d ltac:(lia) ltac:(reflexivity)) as H0.
  pose proof (toFixed2_gt_iff 6096 60.96 d ltac:(lia) ltac:(reflexivity)) as H1.
  pose proof (toFixed2_gt_false_iff 6096 60.96 d ltac:(lia) ltac:(reflexivity)) as H1'.
  pose proof (toFixed2_gt_iff 3048 30.48 d ltac:(lia) ltac:(reflexivity)) as H2.
  pose proof (toFixed2_gt_false_iff 3048 30.48 d ltac:(lia) ltac:(reflexivity)) as H2'.
  assert (Num.gt (Num.toFixed2 d) 76.2 = false) as -> by (apply H0; lra).
  destruct (Num.gt (Num.toFixed2 d) 60.96);
    destruct (Num.gt (Num.toFixed2 d) 30.48); simpl;
    repeat match goal with
           | H : ?b = ?b <-> _ |- _ => apply proj1 in H; specialize (H eq_refl)
           | H : true = false <-> _ |- _ => clear H
           | H : false = true <-> _ |- _ => clear H
           end;
    destruct (Qle_bool 60.965 d) eqn:F1; destruct (Qle_bool 30.485 d) eqn:F2;
    try reflexivity; exfalso;
    try (apply Qle_bool_iff in F1); try (apply Qle_bool_iff in F2);
    try (assert (~ 60.965 <= d) as F1'
           by (intro L; apply Qle_bool_iff in L; congruence));
    try (assert (~ 30.485 <= d) as F2'
           by (intro L; apply Qle_bool_iff in L; congruence));
    lra.
Qed.



Lemma classify_safe_iff (d : Q) :
  Severity.classify d = Severity.Safe <-> Num.gt d 76.2 = true.
Proof.
  unfold Severity.classify. destruct (Num.gt d 76.2) eqn:E.
  - tauto.
  - apply gt_false in E. rewrite (alertLevel_toFixed2 d E).
    split; [|discriminate].
    destruct (Qle_bool 60.965 d); [discriminate|].
    destruct (Qle_bool 30.485 d); discriminate.
Qed.

End NumFacts.



(** ** The evaluation cycle, path by path *)

Section EvaluatePaths.

Local Open Scope string_scope.

Variable w : World.
Variable now : Z.
Variable r : SensorReading.t.
Variable rest : list SensorReading.t.

Hypothesis no_faults : faults w = [].
Hypothesis latest : Sql.select_latest_reading (db w) = r :: rest.

Ltac run :=
  unfold Evaluate.POST, Evaluate.POST_body, try_catch, bind, query, execute,
    storage_call, get_firstSafeDetectedAt, set_firstSafeDetectedAt, ret;
  repeat (progress cbn [db firstSafeDetectedAt faults hd tl fst snd]
          || match goal with
             | H : _ = _ |- _ => progress rewrite H
             end).

Lemma POST_safe_first :
  Num.gt (SensorReading.distance r) 76.2 = true ->
  firstSafeDetectedAt w = None ->
  Evaluate.POST now w =
    (Return (Response.json true
               "Water is safe. Waiting for grace period to confirm."),
     mkWorld (db w) (Some now) []).
Proof.
  intros Hsafe Hnone. run. reflexivity.
Qed.

Lemma POST_safe_clear (t0 : Z) :
  Num.gt (SensorReading.distance r) 76.2 = true ->
  firstSafeDetectedAt w = Some t0 ->
  Num.ge (inject_Z (now - t0) / 1000) 300 = true ->
  Evaluate.POST now w =
    (Return (Response.json true
               "Water level has been safe for 5 minutes. Alerts marked as past."),
     mkWorld (Sql.update_active_to_past (db w)) None []).
Proof.
  intros Hsafe Hsome Hge. run. reflexivity.
Qed.

Lemma POST_safe_wait (t0 : Z) :
  Num.gt (SensorReading.distance r) 76.2 = true ->
  firstSafeDetectedAt w = Some t0 ->
  Num.ge (inject_Z (now - t0) / 1000) 300 = false ->
  Evaluate.POST now w =
    (Return (Response.json true
               ("Water is safe. "
                ++ Num.show (Num.ceil (300 - inject_Z (now - t0) / 1000))
                ++ " seconds remaining to confirm.")),
     mkWorld (db w) (Some t0) []).
Proof.
  intros Hsafe Hsome Hge. run. reflexivity.
Qed.


Lemma POST_adverse_insert (l : string) :
  Num.gt (SensorReading.distance r) 76.2 = false ->
  Severity.alertLevel (Num.toFixed2 (SensorReading.distance r)) = Some l ->
  Sql.select_duplicate (SensorReading.reading_time r) l (db w) = [] ->
  Evaluate.POST now w =
    let d1 := Evaluate.insert_new_alert l r now (db w) in
    let activeAlerts := Sql.select_active_ids d1 in
    if (2 <? List.length activeAlerts)%nat
    then (Return (Response.json true
                    "New alert recorded. Older alerts marked as past."),
          mkWorld (Sql.update_past_not_in (firstn 2 activeAlerts) d1) None [])
    else (Return (Response.json true "Flood alert recorded successfully."),
          mkWorld d1 None []).
Proof.
  intros Hadv Hl Hdup. run.
  change (0 <? List.length (@nil FloodAlert.t))%nat with false.
  run. cbv zeta.
  destruct (2 <? List.length _)%nat; run; reflexivity.
Qed.

End EvaluatePaths.

(** ** The grace period *)

Section GracePeriod.

Local Open Scope string_scope.

(** [elapsedTime >= 300] on seconds is [now - t0 >= 300000] on
    milliseconds. *)
Lemma elapsed_ge_iff (z : Z) :
  Num.ge (inject_Z z / 1000) 300 = true <-> 300000 <= z.
Proof.
  rewrite ge_spec, Zle_Qle. unfold Qdiv. change (/ 1000)%Q with (1 # 1000)%Q.
  change (inject_Z 300000) with 300000%Q. split; intro; lra.
Qed.

Lemma elapsed_ge_false_iff (z : Z) :
  Num.ge (inject_Z z / 1000) 300 = false <-> z < 300000.
Proof.
  rewrite ge_false, Zlt_Qlt. unfold Qdiv. change (/ 1000)%Q with (1 # 1000)%Q.
  change (inject_Z 300000) with 300000%Q. split; intro; lra.
Qed.



End GracePeriod.


(** ** Arrival of readings *)

Section Readings.

(** A key larger than every key of the list goes to the front. *)
Lemma order_by_desc_newest {A : Type} (key : A -> Z) (x : A) (l : list A) :
  (forall a, In a l -> key a < key x) ->
  Sql.order_by_desc key (l ++ [x]) = x :: Sql.order_by_desc key l.
Proof.
  unfold Sql.order_by_desc. rewrite fold_right_app. cbn [fold_right Sql.insert_desc].
  induction l as [|a l IH]; intro Hlt; [reflexivity|].
  cbn [fold_right]. rewrite IH by (intros b Hb; apply Hlt; now right).
  cbn [Sql.insert_desc].
  assert (key a < key x) as Ha by (apply Hlt; now left).
  destruct (key x <=? key a)%Z eqn:E; [apply Z.leb_le in E; lia | reflexivity].
Qed.

(** A fault-free POST of a well-formed reading appends it to the readings
    and leaves the timer alone. *)
Lemma ingest_appends (w : World) (now : Z) (distance floodLevel : Q)
  (status : string) :
  faults w = [] ->
  let w' := snd (Ingest.POST now (Ingest.reading_body distance floodLevel status) w) in
  Sql.sensor_readings (db w') =
    Sql.sensor_readings (db w)
    ++ [SensorReading.mk (Sql.sensor_readings_auto_increment (db w))
          distance floodLevel status now]
  /\ firstSafeDetectedAt w' = firstSafeDetectedAt w
  /\ faults w' = [].
Proof.
  intro Hf. destruct w as [d f fs]. cbn in Hf. subst fs.
  unfold Ingest.POST, Ingest.reading_body, Ingest.store_reading.
  cbn [Json.destructure Json.lookup String.eqb Ascii.eqb Bool.eqb].
  unfold try_catch, bind, execute, storage_call, ret.
  cbn [db firstSafeDetectedAt faults hd tl fst snd Sql.insert_reading].
  destruct (Ingest.is_adverse_tag status);
    cbn [db firstSafeDetectedAt faults hd tl fst snd Sql.insert_alert
         Sql.sensor_readings]; auto.
Qed.

Lemma latest_after_ingest (w : World) (now : Z) (distance floodLevel : Q)
  (status : string) :
  faults w = [] -> older_than now (db w) ->
  let w' := snd (Ingest.POST now (Ingest.reading_body distance floodLevel status) w) in
  exists r rest,
    Sql.select_latest_reading (db w') = r :: rest
    /\ SensorReading.distance r = distance
    /\ (forall t, now < t -> older_than t (db w')).
Proof.
  intros Hf Hold w'.
  destruct (ingest_appends w now distance floodLevel status Hf) as (Hr & _ & _).
  fold w' in Hr.
  exists (SensorReading.mk (Sql.sensor_readings_auto_increment (db w))
            distance floodLevel status now), [].
  split; [|split].
  - unfold Sql.select_latest_reading. rewrite Hr.
    rewrite order_by_desc_newest by (intros a Ha; apply Hold, Ha).
    reflexivity.
  - reflexivity.
  - intros t Ht x Hx. rewrite Hr in Hx. apply in_app_or in Hx.
    destruct Hx as [Hx|[<-|[]]].
    + apply Hold in Hx. lia.
    + cbn. lia.
Qed.

End Readings.

(** ** The evaluation cycle under arbitrary faults *)

(** Symbolic execution of a cycle: unfold the handler, then split on each
    pending fault and each test of the route. *)
Ltac unfold_cycle :=
  unfold Evaluate.POST, Evaluate.POST_body, try_catch, bind, query, execute,
    storage_call, get_firstSafeDetectedAt, set_firstSafeDetectedAt, ret in *.

Ltac reduce :=
  cbn [db firstSafeDetectedAt faults fst snd] in *.

Ltac split_cycle :=
  repeat (reduce;
          match goal with
          | H : ?x = _ |- context [match ?x with _ => _ end] => rewrite H in *
          | |- context [match hd None ?fs with _ => _ end] =>
              destruct (hd None fs) eqn:?
          | |- context [if ?b then _ else _] => destruct b eqn:?
          | |- context [match Severity.alertLevel ?x with _ => _ end] =>
              destruct (Severity.alertLevel x) eqn:?
          | |- context [match firstSafeDetectedAt ?x with _ => _ end] =>
              destruct (firstSafeDetectedAt x) eqn:?
          end); reduce.

Section EvaluateAnyFaults.

(** Once the latest reading has been read and is adverse, the timer is
    cleared, whatever happens to the storage calls that follow. *)
Lemma POST_adverse_clears_timer
  (w : World) (now : Z) (r : SensorReading.t) (rest : list SensorReading.t) :
  hd None (faults w) = None ->
  Sql.select_latest_reading (db w) = r :: rest ->
  Num.gt (SensorReading.distance r) 76.2 = false ->
  firstSafeDetectedAt (snd (Evaluate.POST now w)) = None.
Proof.
  intros Hq Hlatest Hadv. unfold_cycle. reduce.
  rewrite Hq. reduce. rewrite Hlatest, Hadv.
  split_cycle; reflexivity.
Qed.

(** A cycle never touches the readings, and consumes only pending faults. *)
Lemma POST_keeps_readings (w : World) (now : Z) :
  Sql.sensor_readings (db (snd (Evaluate.POST now w)))
  = Sql.sensor_readings (db w).
Proof.
  unfold_cycle. reduce.
  destruct (hd None (faults w)); reduce; [reflexivity|].
  destruct (Sql.select_latest_reading (db w)); reduce; [reflexivity|].
  split_cycle; reflexivity.
Qed.

Lemma POST_no_new_faults (w : World) (now : Z) :
  faults w = [] -> faults (snd (Evaluate.POST now w)) = [].
Proof.
  intro Hf. unfold_cycle. reduce. rewrite Hf. cbn [hd tl].
  destruct (Sql.select_latest_reading (db w)); reduce; [reflexivity|].
  split_cycle; reflexivity.
Qed.

End EvaluateAnyFaults.

(** C3: a cycle that has read an adverse latest reading leaves the timer
    unset, whatever the timer was and whatever happens to its later storage
    calls, so the grace period is counted from the next safe reading.
    Readings arrive at [t0] (safe), [t1] (adverse) and [t2] (safe), each
    followed by an evaluation: the timer is unset after the adverse one and
    restarts at [t2]; a later evaluation clears the alerts only from
    [t2 + 300 s] on, and before that leaves the world as it is. *)
Theorem adverse_reading_restarts_timer
  (w0 : World) (t0 t1 t2 t : Z) (d0 d1 d2 f0 f1 f2 : Q) (s0 s1 s2 : string) :
  faults w0 = [] ->
  older_than t0 (db w0) ->
  t0 < t1 -> t1 < t2 -> t2 <= t ->
  Severity.classify d0 = Severity.Safe ->
  Severity.classify d1 <> Severity.Safe ->
  Severity.classify d2 = Severity.Safe ->
  let arrive now d f s w :=
    snd (Ingest.POST now (Ingest.reading_body d f s) w) in
  let evaluate now w := snd (Evaluate.POST now w) in
  let w1 := evaluate t0 (arrive t0 d0 f0 s0 w0) in
  let w2 := evaluate t1 (arrive t1 d1 f1 s1 w1) in
  let w3 := evaluate t2 (arrive t2 d2 f2 s2 w2) in
  (forall w now r rest,
     hd None (faults w) = None ->
     Sql.select_latest_reading (db w) = r :: rest ->
     Severity.classify (SensorReading.distance r) <> Severity.Safe ->
     firstSafeDetectedAt (snd (Evaluate.POST now w)) = None)
  /\ firstSafeDetectedAt w2 = None
  /\ firstSafeDetectedAt w3 = Some t2
  /\ db w3 = db (arrive t2 d2 f2 s2 w2)
  /\ (t - t2 < 300 * 1000 ->
      snd (Evaluate.POST t w3) = w3
      /\ exists secs : Z,
           fst (Evaluate.POST t w3) =
             Return (Response.json true
                       ("Water is safe. " ++ Num.show secs
                        ++ " seconds remaining to confirm.")%string))
  /\ (300 * 1000 <= t - t2 ->
      fst (Evaluate.POST t w3) =
        Return (Response.json true
                  "Water level has been safe for 5 minutes. Alerts marked as past.")).
Proof.
  intros Hf Hold H01 H12 H2t Hs0 Hs1 Hs2 arrive evaluate w1 w2 w3.
  assert (forall w now r rest,
            hd None (faults w) = None ->
            Sql.select_latest_reading (db w) = r :: rest ->
            Severity.classify (SensorReading.distance r) <> Severity.Safe ->
            firstSafeDetectedAt (snd (Evaluate.POST now w)) = None) as Hclear.
  { intros w now r rest Hq Hl Hc.
    apply (POST_adverse_clears_timer w now r rest Hq Hl).
    destruct (Num.gt (SensorReading.distance r) 76.2) eqn:E; [|reflexivity].
    exfalso. apply Hc. now apply classify_safe_iff. }
  split; [exact Hclear|].
  (* first reading and evaluation *)
  destruct (ingest_appends w0 t0 d0 f0 s0 Hf) as (_ & _ & Hfa0).
  destruct (latest_after_ingest w0 t0 d0 f0 s0 Hf Hold) as (r0 & rest0 & _ & _ & Hold0).
  fold (arrive t0 d0 f0 s0 w0) in Hfa0, Hold0.
  assert (faults w1 = []) as Hf1 by (apply POST_no_new_faults, Hfa0).
  assert (older_than t1 (db w1)) as Hold1.
  { unfold older_than, w1, evaluate. rewrite POST_keeps_readings.
    apply (Hold0 t1 H01). }
  (* the adverse reading *)
  destruct (ingest_appends w1 t1 d1 f1 s1 Hf1) as (_ & _ & Hfa1).
  destruct (latest_after_ingest w1 t1 d1 f1 s1 Hf1 Hold1)
    as (r1 & rest1 & Hl1 & Hd1 & Hold1').
  fold (arrive t1 d1 f1 s1 w1) in Hfa1, Hl1, Hold1'.
  assert (firstSafeDetectedAt w2 = None) as Hw2.
  { apply (Hclear _ t1 r1 rest1); [now rewrite Hfa1|exact Hl1|].
    now rewrite Hd1. }
  assert (faults w2 = []) as Hf2 by (apply POST_no_new_faults, Hfa1).
  assert (older_than t2 (db w2)) as Hold2.
  { unfold older_than, w2, evaluate. rewrite POST_keeps_readings.
    apply (Hold1' t2 H12). }
  (* the second safe reading *)
  destruct (ingest_appends w2 t2 d2 f2 s2 Hf2) as (_ & Hfs2 & Hfa2).
  destruct (latest_after_ingest w2 t2 d2 f2 s2 Hf2 Hold2)
    as (r2 & rest2 & Hl2 & Hd2 & _).
  fold (arrive t2 d2 f2 s2 w2) in Hfs2, Hfa2, Hl2.
  assert (Num.gt (SensorReading.distance r2) 76.2 = true) as Hsafe2
    by (rewrite Hd2; now apply classify_safe_iff).
  assert (w3 = mkWorld (db (arrive t2 d2 f2 s2 w2)) (Some t2) []) as Hw3.
  { unfold w3, evaluate.
    rewrite (POST_safe_first _ t2 r2 rest2 Hfa2 Hl2 Hsafe2); [reflexivity|].
    now rewrite Hfs2. }
  split; [exact Hw2|]. rewrite Hw3. cbn [db firstSafeDetectedAt].
  split; [reflexivity|]. split; [reflexivity|].
  set (w3' := mkWorld (db (arrive t2 d2 f2 s2 w2)) (Some t2) []).
  split; intro Hel.
  - rewrite (POST_safe_wait w3' t r2 rest2 eq_refl Hl2 t2 Hsafe2 eq_refl)
      by (apply elapsed_ge_false_iff; lia).
    split; [reflexivity|]. eexists. reflexivity.
  - rewrite (POST_safe_clear w3' t r2 rest2 eq_refl Hl2 t2 Hsafe2 eq_refl)
      by (apply elapsed_ge_iff; lia).
    reflexivity.
Qed.

(** ** Duplicate detection *)

Section Duplicates.

Lemma str_eq_refl (c : Sql.collation) (s : string) : Sql.str_eq c s s = true.
Proof. destruct c; cbn; apply String.eqb_refl. Qed.

Lemma str_eq_binary (c : Sql.collation) (a b : string) :
  Sql.str_eq Sql.binary a b = true -> Sql.str_eq c a b = true.
Proof.
  cbn. intro H. apply String.eqb_eq in H. subst. apply str_eq_refl.
Qed.




Lemma filter_map_commute {A : Type} (p : A -> bool) (g : A -> A) (l : list A) :
  (forall a, p (g a) = p a) ->
  filter p (List.map g l) = List.map g (filter p l).
Proof.
  intro H. induction l as [|a l IH]; [reflexivity|].
  cbn. rewrite H. destruct (p a); cbn; now rewrite IH.
Qed.


(** The cap update changes no column the duplicate check reads. *)
Lemma select_duplicate_update_past_not_in (c : Sql.collation) (rt : Z)
  (l : string) (ids : list Z) (d : Sql.Db) :
  filter (Sql.duplicate_match c rt l)
         (Sql.flood_alerts (Sql.update_past_not_in ids d))
  = List.map (fun a =>
                if FloodAlert.is_active a
                   && negb (existsb (Z.eqb (FloodAlert.id a)) ids)
                then FloodAlert.set_status FloodAlert.past a else a)
             (filter (Sql.duplicate_match c rt l) (Sql.flood_alerts d)).
Proof.
  cbn [Sql.update_past_not_in Sql.set_flood_alerts Sql.flood_alerts].
  apply filter_map_commute. intro a.
  destruct (_ && _); reflexivity.
Qed.

End Duplicates.


(** ** What a cycle does to the alert table *)

Section AlertTable.

Lemma demotion_id : demotion (fun a => a).
Proof. intro a. now left. Qed.

Lemma demotion_if (p : FloodAlert.t -> bool) :
  demotion (fun a => if p a then FloodAlert.set_status FloodAlert.past a else a).
Proof. intro a. destruct (p a); auto. Qed.

Lemma alerts_step_same (d : Sql.Db) (now : Z) :
  alerts_step d now (Sql.flood_alerts d).
Proof.
  pose proof (step_demote d now (fun a => a) demotion_id) as H.
  now rewrite map_id in H.
Qed.

Lemma alerts_step_inserted (d : Sql.Db) (now : Z) (r : SensorReading.t)
  (rest : list SensorReading.t) (l : string) :
  Sql.select_latest_reading d = r :: rest ->
  Num.gt (SensorReading.distance r) 76.2 = false ->
  Severity.alertLevel (Num.toFixed2 (SensorReading.distance r)) = Some l ->
  alerts_step d now (Sql.flood_alerts (Evaluate.insert_new_alert l r now d)).
Proof.
  intros H1 H2 H3.
  pose proof (step_insert d now (fun a => a) r rest l H1 H2 H3 demotion_id)
    as H.
  now rewrite map_id in H.
Qed.

(** Whatever the faults, a cycle only demotes alerts, and appends at most
    the alert of the adverse reading it has read. *)
Lemma POST_alerts_step (w : World) (now : Z) :
  alerts_step (db w) now (Sql.flood_alerts (db (snd (Evaluate.POST now w)))).
Proof.
  unfold_cycle. reduce.
  destruct (hd None (faults w)); reduce; [apply alerts_step_same|].
  destruct (Sql.select_latest_reading (db w)) as [|r rest] eqn:Hlatest;
    reduce; [apply alerts_step_same|].
  destruct (Num.gt (SensorReading.distance r) 76.2) eqn:Hadv.
  - split_cycle; try apply alerts_step_same.
    apply step_demote, demotion_if.
  - reduce.
    destruct (Severity.alertLevel (Num.toFixed2 (SensorReading.distance r)))
      as [l|] eqn:Hl; reduce; [|apply alerts_step_same].
    split_cycle; try apply alerts_step_same;
      try (now apply (alerts_step_inserted _ _ r rest l)).
    all: now apply (step_insert _ _ _ r rest l Hlatest Hadv Hl), demotion_if.
Qed.




End AlertTable.

(** ** Status tags *)

Section Tags.




End Tags.

(** ** The ingest handler, case by case *)

Section IngestCases.

Lemma POST_cases (now : Z) (request_json : outcome Json.value) (w : World) :
  (exists e, request_json = Throw e
             /\ Ingest.POST now request_json w
                = (Return (Ingest.invalid_json e), w))
  \/ (exists e, request_json = Return Json.null
                /\ Ingest.POST now request_json w = (Throw e, w))
  \/ (exists parsedData distance floodLevel status,
        request_json = Return parsedData
        /\ well_typed parsedData distance floodLevel status
        /\ Ingest.POST now request_json w
           = Ingest.store_reading distance floodLevel status now w)
  \/ (exists parsedData,
        request_json = Return parsedData
        /\ parsedData <> Json.null
        /\ (forall distance floodLevel status,
              ~ well_typed parsedData distance floodLevel status)
        /\ Ingest.POST now request_json w = (Return Ingest.invalid_data, w)).
Proof.
  destruct request_json as [parsedData|e]; [|left; eauto].
  right. unfold well_typed.
  destruct parsedData as [|b|n|s|items|fields];
    try (right; right; eexists; split; [reflexivity|];
         split; [discriminate|]; split; [discriminate|reflexivity]).
  - left. eexists. split; reflexivity.
  - right. unfold Ingest.POST. cbn [Json.destructure].
    destruct (Json.lookup "distance" fields) as [[]|] eqn:E1;
      destruct (Json.lookup "floodLevel" fields) as [[]|] eqn:E2;
      destruct (Json.lookup "status" fields) as [[]|] eqn:E3;
      try (right; exists (Json.object fields); split; [reflexivity|];
           split; [discriminate|];
           split; [intros; cbn [Json.destructure]; rewrite E1, E2, E3;
                   discriminate|reflexivity]).
    left.
    match goal with
    | _ : Json.lookup "distance" fields = Some (Json.number ?d),
      _ : Json.lookup "floodLevel" fields = Some (Json.number ?f),
      _ : Json.lookup "status" fields = Some (Json.str ?s) |- _ =>
        exists (Json.object fields), d, f, s
    end.
    split; [reflexivity|].
    split; [cbn [Json.destructure]; now rewrite E1, E2, E3|reflexivity].
Qed.

(** The second [try] block: the reading is stored unless a call fails
    first; a failing call is answered with 500. *)
Lemma store_reading_cases (distance floodLevel : Q) (status : string)
  (now : Z) (w : World) :
  let stored_db := snd (Sql.insert_reading distance floodLevel status now (db w)) in
  let alert_db :=
    Sql.insert_alert (Str.toLowerCase status) (Ingest.alert_message status)
      FloodAlert.active None None None now (Some now) stored_db in
  let '(out, w') := Ingest.store_reading distance floodLevel status now w in
  firstSafeDetectedAt w' = firstSafeDetectedAt w
  /\ ((exists e, out = Return (Ingest.server_error e) /\ In (Some e) (faults w)
                 /\ (db w' = db w \/ db w' = stored_db))
      \/ (out = Return (Ingest.stored (Sql.sensor_readings_auto_increment (db w))
                          distance floodLevel status now)
          /\ db w' = if Ingest.is_adverse_tag status then alert_db else stored_db)).
Proof.
  unfold Ingest.store_reading, try_catch, bind, execute, storage_call, ret.
  cbn [db firstSafeDetectedAt faults fst snd].
  assert (forall (e : string) fs, In (Some e) (None :: fs) <-> In (Some e) fs)
    as Hskip.
  { intros e fs. cbn. split; [intros [H|H]; [discriminate|exact H] | auto]. }
  destruct (faults w) as [|[e1|] [|[e2|] [|[e3|] fs3]]];
    destruct (Ingest.is_adverse_tag status);
    cbn [db firstSafeDetectedAt faults fst snd hd tl];
    (split; [reflexivity|]);
    first [ right; split; reflexivity
          | left; eexists; split; [reflexivity|];
            split; [rewrite ?Hskip; now left|];
            first [left; reflexivity | right; reflexivity] ].
Qed.


End IngestCases.

(** ** Failures of storage calls during a cycle *)

Section StorageFailures.

Lemma hd_fault_In (e : string) (fs : list (option string)) :
  hd None fs = Some e -> In (Some e) fs.
Proof. destruct fs; cbn; [discriminate|auto]. Qed.

Lemma tl_fault_In (x : option string) (fs : list (option string)) :
  In x (tl fs) -> In x fs.
Proof. destruct fs; cbn; auto. Qed.

(** The [catch] block turns a throw into the error response and does
    nothing else. *)
Lemma POST_catch (w : World) (now : Z) :
  snd (Evaluate.POST now w) = snd (Evaluate.POST_body now w)
  /\ fst (Evaluate.POST now w) =
       match fst (Evaluate.POST_body now w) with
       | Return resp => Return resp
       | Throw _ => Return (Response.json false "Error evaluating flood alert.")
       end.
Proof.
  unfold Evaluate.POST, try_catch, ret.
  destruct (Evaluate.POST_body now w) as [[resp|e] w']; split; reflexivity.
Qed.

(** An error thrown by the cycle is a pending fault of the world. *)
Lemma POST_body_throw_is_fault (w : World) (now : Z) (e : string) :
  fst (Evaluate.POST_body now w) = Throw e -> In (Some e) (faults w).
Proof.
  unfold_cycle. reduce.
  destruct (hd None (faults w)) eqn:H1; reduce.
  { intro H. injection H as <-. now apply hd_fault_In. }
  destruct (Sql.select_latest_reading (db w)) as [|r rest]; reduce;
    [discriminate|].
  split_cycle; intro H; try discriminate H; injection H as <-;
    repeat match goal with
           | H : hd None _ = Some _ |- _ => apply hd_fault_In in H
           | H : In _ (tl _) |- _ => apply tl_fault_In in H
           end; assumption.
Qed.


End StorageFailures.



(** C8 (as stated) fails: the store is unreachable, and the response to the
    evaluation request has status 200. *)
Lemma failed_cycle_status_counterexample :
  let w := mkWorld (empty_db Sql.binary) None
             [Some "connect ECONNREFUSED"%string] in
  fst (Evaluate.POST_body 0 w) = Throw "connect ECONNREFUSED"
  /\ forall resp, fst (Evaluate.POST 0 w) = Return resp ->
                  ~ (500 <= Response.http_status resp <= 599).
Proof.
  cbv zeta. split; [vm_compute; reflexivity|].
  intros resp H. vm_compute in H. injection H as <-. cbn. lia.
Qed.

(** C8 (amended): when the store is unreachable or a write fails during a
    cycle, the endpoint answers with success false and the message
    "Error evaluating flood alert.", under the default status 200. *)
Theorem failed_cycle_response (w : World) (now : Z) (e : string) :
  fst (Evaluate.POST_body now w) = Throw e ->
  In (Some e) (faults w)
  /\ exists resp,
       fst (Evaluate.POST now w) = Return resp
       /\ Response.success resp = false
       /\ Response.message resp = "Error evaluating flood alert."%string
       /\ Response.http_status resp = 200.
Proof.
  intro Hthrow. split; [now apply (POST_body_throw_is_fault w now)|].
  destruct (POST_catch w now) as [_ Hr]. rewrite Hthrow in Hr.
  eexists. split; [exact Hr|]. repeat split.
Qed.

(** ** Alerts of the two insertion paths *)




(** ** The contract of POST /readings *)

(** For every body but [null]: an unparsable or ill-typed body is answered
    with 400 and changes nothing; a well-typed one is answered with 200 and
    the stored reading, or with 500 when a storage call fails. *)
Lemma ingest_contract (now : Z) (request_json : outcome Json.value)
  (w : World) :
  request_json <> Return Json.null ->
  exists resp,
    fst (Ingest.POST now request_json w) = Return resp
    /\ ((Response.http_status resp = 400
         /\ Response.success resp = false
         /\ snd (Ingest.POST now request_json w) = w
         /\ forall parsedData distance floodLevel status,
              request_json = Return parsedData ->
              ~ well_typed parsedData distance floodLevel status)
        \/ exists parsedData distance floodLevel status,
             request_json = Return parsedData
             /\ well_typed parsedData distance floodLevel status
             /\ ((Response.http_status resp = 500
                  /\ Response.success resp = false
                  /\ exists e, In (Some e) (faults w))
                 \/ (Response.http_status resp = 200
                     /\ Response.success resp = true
                     /\ Response.receivedData resp
                        = Some (Response.mkReceived
                                  (Sql.sensor_readings_auto_increment (db w))
                                  distance floodLevel status now)
                     /\ In (SensorReading.mk
                              (Sql.sensor_readings_auto_increment (db w))
                              distance floodLevel status now)
                           (Sql.sensor_readings
                              (db (snd (Ingest.POST now request_json w))))))).
Proof.
  intro Hnull.
  destruct (POST_cases now request_json w)
    as [(e & Hreq & HP) | [(e & Hreq & _) | [(p & d & f & s & Hreq & Hwt & HP)
                                           | (p & Hreq & _ & Hnwt & HP)]]].
  - rewrite HP. eexists. split; [reflexivity|]. left.
    repeat split. intros p d f s Hp. congruence.
  - contradiction.
  - rewrite HP.
    pose proof (store_reading_cases d f s now w) as H. cbv zeta in H.
    destruct (Ingest.store_reading d f s now w) as [out w'].
    destruct H as (_ & [(e & -> & Hin & _) | (-> & Hdb)]);
      (eexists; split; [reflexivity|]); right; exists p, d, f, s;
      (split; [exact Hreq|]); (split; [exact Hwt|]).
    + left. repeat split. now exists e.
    + right. repeat split. cbn [snd]. rewrite Hdb.
      destruct (Ingest.is_adverse_tag s);
        cbn [Sql.insert_alert Sql.insert_reading Sql.sensor_readings snd];
        apply in_or_app; right; now left.
  - rewrite HP. eexists. split; [reflexivity|]. left.
    repeat split. intros p' d f s Hp. injection (eq_trans (eq_sym Hreq) Hp) as <-.
    apply Hnwt.
Qed.

(** C9 (the code at the failing input): a body that parses to [null] is
    not answered with 400; the destructuring throws outside both [try]
    blocks and the handler ends with an uncaught error. *)
Theorem null_body_throws (w : World) (now : Z) :
  exists e, Ingest.POST now (Return Json.null) w = (Throw e, w).
Proof. eexists. reflexivity. Qed.

(** ** ORDER BY ... DESC *)

Section OrderBy.

Context {A : Type} (key : A -> Z).

Lemma insert_desc_perm (x : A) (l : list A) :
  Permutation (Sql.insert_desc key x l) (x :: l).
Proof.
  induction l as [|y l IH]; cbn [Sql.insert_desc]; [reflexivity|].
  destruct (key y <=? key x); [reflexivity|].
  rewrite IH. apply perm_swap.
Qed.

Lemma order_by_desc_perm (l : list A) :
  Permutation (Sql.order_by_desc key l) l.
Proof.
  unfold Sql.order_by_desc.
  induction l as [|x l IH]; cbn [fold_right]; [reflexivity|].
  rewrite insert_desc_perm. now constructor.
Qed.

Lemma insert_desc_sorted (x : A) (l : list A) :
  StronglySorted (desc_by key) l -> StronglySorted (desc_by key) (Sql.insert_desc key x l).
Proof.
  induction 1 as [|y l Hl IH Hy]; cbn [Sql.insert_desc].
  - constructor; constructor.
  - destruct (key y <=? key x) eqn:E.
    + apply Z.leb_le in E. constructor; [now constructor|].
      constructor; [exact E|].
      rewrite Forall_forall in Hy |- *. intros z Hz.
      specialize (Hy z Hz). unfold desc_by in *. lia.
    + apply Z.leb_gt in E. constructor; [exact IH|].
      rewrite Forall_forall in Hy |- *. intros z Hz.
      apply (Permutation_in _ (insert_desc_perm x l)) in Hz.
      destruct Hz as [<-|Hz]; [unfold desc_by; lia|now apply Hy].
Qed.

Lemma order_by_desc_sorted (l : list A) :
  StronglySorted (desc_by key) (Sql.order_by_desc key l).
Proof.
  unfold Sql.order_by_desc.
  induction l as [|x l IH]; cbn [fold_right]; [constructor|].
  now apply insert_desc_sorted.
Qed.

(** In a sorted result, a row of a prefix is at least as recent as a row
    of the rest. *)
Lemma sorted_prefix_ge (l1 l2 : list A) :
  StronglySorted (desc_by key) (l1 ++ l2) ->
  forall x y, In x l1 -> In y l2 -> key y <= key x.
Proof.
  induction l1 as [|z l1 IH]; cbn [app]; intros Hs x y Hx Hy; [destruct Hx|].
  inversion Hs as [|? ? Hs' Hz]; subst.
  destruct Hx as [<-|Hx].
  - rewrite Forall_forall in Hz. apply Hz, in_or_app. now right.
  - now apply (IH Hs').
Qed.

Lemma limit_ge (n : nat) (l : list A) (x y : A) :
  In x (firstn n (Sql.order_by_desc key l)) ->
  In y (skipn n (Sql.order_by_desc key l)) ->
  key y <= key x.
Proof.
  apply sorted_prefix_ge. rewrite firstn_skipn. apply order_by_desc_sorted.
Qed.

End OrderBy.

(** ** The cap enforced by the engine *)

Section EngineCap.

Lemma NoDup_map_filter {A B : Type} (f : A -> B) (p : A -> bool) (l : list A) :
  NoDup (List.map f l) -> NoDup (List.map f (filter p l)).
Proof.
  induction l as [|a l IH]; cbn [List.map filter]; intro H; [constructor|].
  inversion H as [|? ? Hn Hd]; subst.
  destruct (p a); cbn [List.map]; [|now apply IH].
  constructor; [|now apply IH].
  intro Hin. apply Hn. apply in_map_iff in Hin as (b & Hb & Hin).
  apply filter_In in Hin as [Hin _]. rewrite <- Hb. now apply in_map.
Qed.

Lemma In_firstn {A : Type} (n : nat) (l : list A) (x : A) :
  In x (firstn n l) -> In x l.
Proof.
  intro H. rewrite <- (firstn_skipn n l). apply in_or_app. now left.
Qed.

Lemma NoDup_map_inj {A B : Type} (f : A -> B) (l : list A) (x y : A) :
  NoDup (List.map f l) -> In x l -> In y l -> f x = f y -> x = y.
Proof.
  induction l as [|a l IH]; cbn [List.map]; intros H Hx Hy E; [destruct Hx|].
  inversion H as [|? ? Hn Hd]; subst.
  destruct Hx as [<-|Hx]; destruct Hy as [<-|Hy]; auto.
  - exfalso. apply Hn. rewrite E. now apply in_map.
  - exfalso. apply Hn. rewrite <- E. now apply in_map.
Qed.

Lemma kept_In (idsToKeep : list Z) (a : FloodAlert.t) :
  kept idsToKeep a = true <-> In (FloodAlert.id a) idsToKeep.
Proof.
  unfold kept. rewrite existsb_exists. split.
  - intros (k & Hk & E). apply Z.eqb_eq in E. now subst.
  - intro H. exists (FloodAlert.id a). split; [exact H|apply Z.eqb_refl].
Qed.

(** After the cap update, the active rows are the active rows it keeps. *)
Lemma active_after_update_past_not_in (idsToKeep : list Z) (d : Sql.Db) :
  filter FloodAlert.is_active
         (Sql.flood_alerts (Sql.update_past_not_in idsToKeep d))
  = filter (kept idsToKeep) (filter FloodAlert.is_active (Sql.flood_alerts d)).
Proof.
  cbn [Sql.update_past_not_in Sql.set_flood_alerts Sql.flood_alerts].
  induction (Sql.flood_alerts d) as [|a l IH]; [reflexivity|].
  cbn [List.map filter]. fold (kept idsToKeep a).
  destruct (FloodAlert.is_active a) eqn:Ha; cbn [andb negb filter].
  - destruct (kept idsToKeep a) eqn:Hk; cbn [negb filter].
    + rewrite Ha. now rewrite IH.
    + cbn [FloodAlert.is_active FloodAlert.set_status FloodAlert.status
           FloodAlert.lifecycle_eqb]. exact IH.
  - rewrite Ha. exact IH.
Qed.

(** With distinct ids, the rows kept are exactly as many as the ids to
    keep, when these are ids of the rows. *)
Lemma kept_length (idsToKeep : list Z) (l : list FloodAlert.t) :
  NoDup (List.map FloodAlert.id l) ->
  NoDup idsToKeep ->
  incl idsToKeep (List.map FloodAlert.id l) ->
  List.length (filter (kept idsToKeep) l) = List.length idsToKeep.
Proof.
  intros Hl Hk Hincl.
  rewrite <- (length_map FloodAlert.id (filter (kept idsToKeep) l)).
  apply Nat.le_antisymm; apply NoDup_incl_length.
  - now apply NoDup_map_filter.
  - intros k Hin. apply in_map_iff in Hin as (a & <- & Hin).
    apply filter_In in Hin as [_ Hin]. now apply kept_In.
  - exact Hk.
  - intros k Hin. pose proof (Hincl k Hin) as Hin'.
    apply in_map_iff in Hin' as (a & <- & Ha).
    apply in_map, filter_In. split; [exact Ha|]. now apply kept_In.
Qed.

Lemma ids_fresh_insert (l : string) (r : SensorReading.t) (now : Z)
  (d : Sql.Db) :
  ids_fresh d ->
  NoDup (List.map FloodAlert.id
           (Sql.flood_alerts (Evaluate.insert_new_alert l r now d))).
Proof.
  intros [Hnd Hlt].
  cbn [Evaluate.insert_new_alert Sql.insert_alert Sql.flood_alerts].
  rewrite map_app. cbn [List.map FloodAlert.id].
  apply (Permutation_NoDup (Permutation_cons_append _ _)).
  constructor; [|exact Hnd].
  intro Hin. apply in_map_iff in Hin as (a & E & Hin).
  apply Hlt in Hin. lia.
Qed.

End EngineCap.

(** The engine keeps the cap: a fault-free cycle that inserts an alert into
    a table with distinct ids leaves [min 2 n] active alerts, [n] being the
    number of active alerts right after the INSERT, and an alert it demotes
    is never more recent than one it keeps active. *)
Theorem evaluate_enforces_cap
  (w : World) (now : Z) (r : SensorReading.t) (rest : list SensorReading.t)
  (l : string) :
  faults w = [] ->
  ids_fresh (db w) ->
  Sql.select_latest_reading (db w) = r :: rest ->
  Num.gt (SensorReading.distance r) 76.2 = false ->
  Severity.alertLevel (Num.toFixed2 (SensorReading.distance r)) = Some l ->
  Sql.select_duplicate (SensorReading.reading_time r) l (db w) = [] ->
  let d1 := Evaluate.insert_new_alert l r now (db w) in
  let d' := db (snd (Evaluate.POST now w)) in
  active_count d' = Nat.min 2 (active_count d1)
  /\ forall a b,
       In a (filter FloodAlert.is_active (Sql.flood_alerts d')) ->
       In b (filter FloodAlert.is_active (Sql.flood_alerts d1)) ->
       ~ In b (filter FloodAlert.is_active (Sql.flood_alerts d')) ->
       FloodAlert.created_at b <= FloodAlert.created_at a.
Proof.
  intros Hf Hfresh Hlatest Hadv Hl Hdup d1 d'.
  pose proof (POST_adverse_insert w now r rest Hf Hlatest l Hadv Hl Hdup) as HP.
  cbv zeta in HP. fold d1 in HP.
  set (act := filter FloodAlert.is_active (Sql.flood_alerts d1)).
  set (sorted := Sql.order_by_desc FloodAlert.created_at act).
  assert (Sql.select_active_ids d1 = List.map FloodAlert.id sorted) as Hids
    by reflexivity.
  assert (Permutation sorted act) as Hperm by apply order_by_desc_perm.
  assert (List.length (Sql.select_active_ids d1) = active_count d1) as Hlen.
  { rewrite Hids, length_map. apply (Permutation_length Hperm). }
  assert (NoDup (List.map FloodAlert.id act)) as Hnd.
  { apply NoDup_map_filter. now apply ids_fresh_insert. }
  rewrite Hlen in HP.
  destruct (2 <? active_count d1)%nat eqn:Hcap.
  - (* more than two active alerts: the cap update runs *)
    apply Nat.ltb_lt in Hcap.
    set (keep := firstn 2 (Sql.select_active_ids d1)) in HP.
    assert (filter FloodAlert.is_active (Sql.flood_alerts d')
            = filter (kept keep) act) as Hact.
    { unfold d'. rewrite HP. cbn [snd db].
      apply active_after_update_past_not_in. }
    assert (keep = List.map FloodAlert.id (firstn 2 sorted)) as Hkeep.
    { unfold keep. rewrite Hids. apply firstn_map. }
    split.
    + unfold active_count at 1. rewrite Hact.
      rewrite kept_length.
      * unfold keep. rewrite length_firstn, Hlen. lia.
      * exact Hnd.
      * unfold keep. rewrite Hids.
        assert (NoDup (List.map FloodAlert.id sorted)) as Hnds.
        { apply (Permutation_NoDup (Permutation_map _ (Permutation_sym Hperm))).
          exact Hnd. }
        rewrite <- (firstn_skipn 2 (List.map FloodAlert.id sorted)) in Hnds.
        now apply NoDup_app_remove_r in Hnds.
      * intros k Hk. unfold keep in Hk. rewrite Hids in Hk.
        apply In_firstn in Hk.
        apply (Permutation_in _ (Permutation_map _ Hperm)). exact Hk.
    + intros a b Ha Hb Hnb. rewrite Hact in Ha, Hnb. fold act in Hb.
      apply filter_In in Ha as [Ha Hka].
      assert (In a (firstn 2 sorted)) as Ha2.
      { apply kept_In in Hka. rewrite Hkeep in Hka.
        apply in_map_iff in Hka as (a2 & E & Ha2).
        assert (a2 = a) as <-; [|exact Ha2].
        apply (NoDup_map_inj FloodAlert.id act); auto.
        apply (Permutation_in _ Hperm). now apply (In_firstn 2). }
      assert (In b (skipn 2 sorted)) as Hb2.
      { assert (In b sorted) as Hbs
          by (apply (Permutation_in _ (Permutation_sym Hperm)); exact Hb).
        rewrite <- (firstn_skipn 2 sorted) in Hbs.
        apply in_app_or in Hbs as [Hbs|Hbs]; [|exact Hbs].
        exfalso. apply Hnb. apply filter_In. split; [exact Hb|].
        apply kept_In. rewrite Hkeep. now apply in_map. }
      apply (limit_ge FloodAlert.created_at 2 act a b Ha2 Hb2).
  - (* at most two: nothing is demoted *)
    apply Nat.ltb_ge in Hcap.
    assert (d' = d1) as -> by (unfold d'; now rewrite HP).
    split; [lia|]. intros a b _ Hb Hnb. contradiction.
Qed.

(** ** The cap as an invariant of the engine *)

Section EngineInvariant.






End EngineInvariant.

(** ** The ingest path and the cap *)

Section IngestPathCap.

Lemma active_count_app (d : Sql.Db) (l : list FloodAlert.t) :
  active_count (Sql.set_flood_alerts (Sql.flood_alerts d ++ l) d)
  = (active_count d + List.length (filter FloodAlert.is_active l))%nat.
Proof.
  unfold active_count. cbn [Sql.set_flood_alerts Sql.flood_alerts].
  now rewrite filter_app, length_app.
Qed.

(** A fault-free POST of a reading with an adverse tag adds an active
    alert, however many are active already. *)
Lemma ingest_adds_active_alert (w : World) (now : Z)
  (distance floodLevel : Q) (status : string) :
  faults w = [] ->
  Ingest.is_adverse_tag status = true ->
  active_count
    (db (snd (Ingest.POST now (Ingest.reading_body distance floodLevel status) w)))
  = S (active_count (db w)).
Proof.
  intros Hf Htag. destruct w as [d f fs]. cbn in Hf. subst fs.
  unfold Ingest.POST, Ingest.reading_body, Ingest.store_reading.
  cbn [Json.destructure Json.lookup String.eqb Ascii.eqb Bool.eqb].
  unfold try_catch, bind, execute, storage_call, ret.
  cbn [db firstSafeDetectedAt faults hd tl fst snd Sql.insert_reading].
  rewrite Htag.
  cbn [db firstSafeDetectedAt faults hd tl fst snd Sql.insert_alert].
  unfold active_count. cbn [Sql.flood_alerts Sql.insert_alert].
  rewrite filter_app, length_app. cbn. lia.
Qed.

End IngestPathCap.

(** C1 (the code at the failing input): three sensor posts tagged WARNING
    on an empty store, no evaluation in between, leave three active
    alerts. *)
Theorem ingest_path_exceeds_cap :
  let post w :=
    snd (Ingest.POST 0 (Ingest.reading_body 70 6.2 "WARNING") w) in
  active_count
    (db (post (post (post (mkWorld (empty_db Sql.binary) None [])))))
  = 3%nat.
Proof. vm_compute. reflexivity. Qed.

(** ** Instances

    Each statement above that has hypotheses, applied to sample data. *)


Lemma adverse_reading_restarts_timer_witness :
  let w0 := mkWorld (empty_db Sql.binary) (Some (-5000)) [] in
  let step now d s w :=
    snd (Evaluate.POST now
           (snd (Ingest.POST now (Ingest.reading_body d 12.5 s) w))) in
  let w3 :=
    step 150000 90%Q "SAFE"%string
      (step 100000 50%Q "DANGER"%string (step 0 90%Q "SAFE"%string w0)) in
  (faults w0 = [] /\ older_than 0 (db w0)
   /\ 0 < 100000 /\ 100000 < 150000 /\ 150000 <= 449999
   /\ Severity.classify 90 = Severity.Safe
   /\ Severity.classify 50 <> Severity.Safe)
  /\ firstSafeDetectedAt w3 = Some 150000
  /\ snd (Evaluate.POST 449999 w3) = w3.
Proof.
  cbv zeta.
  assert (older_than 0 (db (mkWorld (empty_db Sql.binary) (Some (-5000)) [])))
    as Hold by (intros x []).
  assert (Severity.classify 90 = Severity.Safe) as Hs
    by (vm_compute; reflexivity).
  assert (Severity.classify 50 <> Severity.Safe) as Ha
    by (vm_compute; discriminate).
  split; [repeat split; assumption || reflexivity || lia|].
  pose proof (adverse_reading_restarts_timer
                (mkWorld (empty_db Sql.binary) (Some (-5000)) [])
                0 100000 150000 449999 90 50 90 12.5 12.5 12.5
                "SAFE" "DANGER" "SAFE" eq_refl Hold
                ltac:(lia) ltac:(lia) ltac:(lia) Hs Ha Hs) as H.
  cbv zeta in H. destruct H as (_ & _ & H3 & _ & Hwait & _).
  split; [exact H3|]. apply Hwait. lia.
Defined.



Lemma failed_cycle_response_witness :
  let w := sample_world 50 None [Some "connect ECONNREFUSED"%string] in
  fst (Evaluate.POST_body 0 w) = Throw "connect ECONNREFUSED"
  /\ exists resp,
       fst (Evaluate.POST 0 w) = Return resp
       /\ Response.success resp = false
       /\ Response.message resp = "Error evaluating flood alert."%string
       /\ Response.http_status resp = 200.
Proof.
  cbv zeta.
  assert (fst (Evaluate.POST_body 0
                 (sample_world 50 None [Some "connect ECONNREFUSED"%string]))
          = Throw "connect ECONNREFUSED") as Hthrow by (vm_compute; reflexivity).
  split; [exact Hthrow|].
  exact (proj2 (failed_cycle_response _ 0 _ Hthrow)).
Defined.



(** * Further properties of the code *)

(** ** Rounding and severity *)

Section Rounding.

Local Open Scope Q_scope.



Lemma classify_by_raw (d : Q) :
  Severity.classify d =
    if Num.gt d 76.2 then Severity.Safe
    else if Qle_bool 60.965 d then Severity.Warning
    else if Qle_bool 30.485 d then Severity.Danger
    else Severity.Critical.
Proof.
  unfold Severity.classify. destruct (Num.gt d 76.2) eqn:E; [reflexivity|].
  apply gt_false in E. rewrite (alertLevel_toFixed2 d E).
  destruct (Qle_bool 60.965 d); [reflexivity|].
  destruct (Qle_bool 30.485 d); reflexivity.
Qed.

End Rounding.

(** X1: the severity never grows with the distance: of two distances, the
    larger one is classified at most as severe as the smaller one, the
    rounding of the adverse tests notwithstanding. *)
Theorem severity_monotone (d1 d2 : Q) :
  (d1 <= d2)%Q ->
  rank (Severity.classify d2) <= rank (Severity.classify d1).
Proof.
  intro Hle. rewrite !classify_by_raw.
  destruct (Num.gt d1 76.2) eqn:G1;
    [apply gt_spec in G1 | apply gt_false in G1];
    (destruct (Num.gt d2 76.2) eqn:G2;
      [apply gt_spec in G2 | apply gt_false in G2]);
    (destruct (Qle_bool 60.965 d1) eqn:A1;
      [apply Qle_bool_iff in A1
      | assert (~ (60.965 <= d1)%Q) as A1'
          by (intro L; apply Qle_bool_iff in L; congruence)]);
    (destruct (Qle_bool 60.965 d2) eqn:A2;
      [apply Qle_bool_iff in A2
      | assert (~ (60.965 <= d2)%Q) as A2'
          by (intro L; apply Qle_bool_iff in L; congruence)]);
    (destruct (Qle_bool 30.485 d1) eqn:B1;
      [apply Qle_bool_iff in B1
      | assert (~ (30.485 <= d1)%Q) as B1'
          by (intro L; apply Qle_bool_iff in L; congruence)]);
    (destruct (Qle_bool 30.485 d2) eqn:B2;
      [apply Qle_bool_iff in B2
      | assert (~ (30.485 <= d2)%Q) as B2'
          by (intro L; apply Qle_bool_iff in L; congruence)]);
    cbn [rank]; try lia; exfalso; lra.
Qed.

Lemma severity_monotone_witness :
  (60.961 <= 60.97)%Q
  /\ rank (Severity.classify 60.97) <= rank (Severity.classify 60.961).
Proof.
  assert (60.961 <= 60.97)%Q as H by (unfold Qle; cbn; lia).
  split; [exact H|]. exact (severity_monotone 60.961 60.97 H).
Defined.

(** ** The evaluation cycle: edge cases and what it never does *)

Section CycleFacts.

Lemma select_latest_reading_nil (d : Sql.Db) :
  Sql.select_latest_reading d = [] <-> Sql.sensor_readings d = [].
Proof.
  unfold Sql.select_latest_reading.
  pose proof (order_by_desc_perm SensorReading.reading_time
                (Sql.sensor_readings d)) as Hperm.
  destruct (Sql.order_by_desc SensorReading.reading_time (Sql.sensor_readings d))
    as [|x l] eqn:E.
  - apply Permutation_nil in Hperm. rewrite Hperm. tauto.
  - cbn [firstn]. split; [discriminate|].
    intro Hnil. rewrite Hnil in Hperm.
    apply Permutation_sym, Permutation_nil in Hperm. discriminate.
Qed.

Lemma evolves_refl (l : list FloodAlert.t) : evolves l l.
Proof. intros i a H. exists a. repeat split; auto. Qed.

Lemma evolves_trans (l1 l2 l3 : list FloodAlert.t) :
  evolves l1 l2 -> evolves l2 l3 -> evolves l1 l3.
Proof.
  intros H12 H23 i a Ha.
  destruct (H12 i a Ha) as (b & Hb & Hab & Hpb).
  destruct (H23 i b Hb) as (c & Hc & Hbc & Hpc).
  exists c. split; [exact Hc|]. split; [|auto].
  unfold same_columns in *. congruence.
Qed.

Lemma evolves_demoted (g : FloodAlert.t -> FloodAlert.t)
  (l rest : list FloodAlert.t) :
  demotion g -> evolves l (List.map g (l ++ rest)).
Proof.
  intros Hg i a Ha. exists (g a). split.
  - rewrite nth_error_map, nth_error_app1
      by (apply nth_error_Some; congruence).
    now rewrite Ha.
  - destruct (Hg a) as [-> | ->]; [repeat split; auto|].
    split; [|reflexivity]. unfold same_columns. now destruct a.
Qed.

(** What a post does to the two tables, whatever the faults. *)
Lemma ingest_appends_only (now : Z) (request_json : outcome Json.value)
  (w : World) :
  let w' := snd (Ingest.POST now request_json w) in
  firstSafeDetectedAt w' = firstSafeDetectedAt w
  /\ Sql.alert_level_collation (db w') = Sql.alert_level_collation (db w)
  /\ Sql.flood_alerts (db w')
     = Sql.flood_alerts (db w) ++ appended (db w) (db w')
  /\ (List.length (appended (db w) (db w')) <= 1)%nat
  /\ exists new,
       Sql.sensor_readings (db w') = Sql.sensor_readings (db w) ++ new
       /\ (List.length new <= 1)%nat.
Proof.
  cbv zeta. unfold appended.
  destruct (POST_cases now request_json w)
    as [(e & _ & ->) | [(e & _ & ->) | [(p & d & f & s & Hreq & Hwt & ->)
                                      | (p & _ & _ & _ & ->)]]];
    cbn [snd];
    try (rewrite skipn_all, app_nil_r; repeat split; auto;
         exists []; rewrite app_nil_r; auto).
  pose proof (store_reading_cases d f s now w) as H. cbv zeta in H.
  destruct (Ingest.store_reading d f s now w) as [out w'].
  destruct H as (Ht & [(e & _ & _ & [Hdb|Hdb]) | (_ & Hdb)]);
    cbn [snd]; rewrite Hdb; (split; [exact Ht|]).
  - rewrite skipn_all, app_nil_r. repeat split; auto.
    exists []. rewrite app_nil_r. auto.
  - cbn [Sql.insert_reading snd Sql.flood_alerts Sql.sensor_readings
         Sql.alert_level_collation].
    rewrite skipn_all, app_nil_r. repeat split; auto.
    eexists. split; [reflexivity|]. cbn. lia.
  - destruct (Ingest.is_adverse_tag s);
      cbn [Sql.insert_reading Sql.insert_alert snd Sql.flood_alerts
           Sql.sensor_readings Sql.alert_level_collation].
    + rewrite skipn_app, skipn_all, Nat.sub_diag. cbn [skipn app].
      repeat split; auto. eexists. split; [reflexivity|]. cbn. lia.
    + rewrite skipn_all, app_nil_r. repeat split; auto.
      eexists. split; [reflexivity|]. cbn. lia.
Qed.

Lemma step_evolves (e : event) (w : World) :
  evolves (Sql.flood_alerts (db w)) (Sql.flood_alerts (db (step e w))).
Proof.
  destruct e as [now request_json | now]; cbn [step].
  - destruct (ingest_appends_only now request_json w) as (_ & _ & -> & _).
    rewrite <- (map_id (_ ++ _)). apply evolves_demoted, demotion_id.
  - destruct (POST_alerts_step w now) as [g Hg | g r rest l _ _ _ Hg].
    + rewrite <- (app_nil_r (Sql.flood_alerts (db w))) at 2.
      now apply evolves_demoted.
    + cbn [Evaluate.insert_new_alert Sql.insert_alert Sql.flood_alerts].
      now apply evolves_demoted.
Qed.

Lemma POST_empty_readings (w : World) (now : Z) :
  hd None (faults w) = None ->
  Sql.sensor_readings (db w) = [] ->
  Evaluate.POST now w =
    (Return (Response.json false "No sensor data found."),
     mkWorld (db w) (firstSafeDetectedAt w) (tl (faults w))).
Proof.
  intros Hq Hr. apply select_latest_reading_nil in Hr.
  unfold_cycle. reduce. rewrite Hq. reduce. rewrite Hr. reflexivity.
Qed.

Lemma select_active_ids_length (d : Sql.Db) :
  List.length (Sql.select_active_ids d) = active_count d.
Proof.
  unfold Sql.select_active_ids, active_count. rewrite length_map.
  apply Permutation_length, order_by_desc_perm.
Qed.

End CycleFacts.

(** X2: with an empty readings table the cycle answers "No sensor data
    found." (success false, status 200) and changes neither the store nor
    the timer; with at least one reading it never gives that answer. *)
Theorem no_reading_no_change (w : World) (now : Z) :
  hd None (faults w) = None ->
  (Sql.sensor_readings (db w) = [] ->
   Evaluate.POST now w =
     (Return (Response.json false "No sensor data found."),
      mkWorld (db w) (firstSafeDetectedAt w) (tl (faults w))))
  /\ (Sql.sensor_readings (db w) <> [] ->
      fst (Evaluate.POST now w)
      <> Return (Response.json false "No sensor data found.")).
Proof.
  intro Hq. split; intro Hr.
  - now apply POST_empty_readings.
  - assert (Sql.select_latest_reading (db w) <> []) as Hl
      by (intro H; apply Hr; now apply select_latest_reading_nil).
    destruct (Sql.select_latest_reading (db w)) as [|r rest] eqn:E;
      [congruence|].
    unfold_cycle. reduce. rewrite Hq. reduce. rewrite E.
    split_cycle; discriminate.
Qed.

Lemma no_reading_no_change_witness :
  let w := mkWorld (empty_db Sql.binary) (Some 7) [] in
  hd None (faults w) = None
  /\ Sql.sensor_readings (db w) = []
  /\ Evaluate.POST 9 w =
       (Return (Response.json false "No sensor data found."), w).
Proof.
  cbv zeta. split; [reflexivity|]. split; [reflexivity|].
  exact (proj1 (no_reading_no_change
                  (mkWorld (empty_db Sql.binary) (Some 7) []) 9 eq_refl)
               eq_refl).
Defined.

(** X3: whatever is posted, whenever the cycles run and whichever storage
    calls fail, no alert is ever deleted, moved or rewritten, and an alert
    that is past never becomes active again: after any sequence of posts and
    evaluation cycles every earlier row is at its place with its columns,
    the status apart, which can only have gone from active to past. *)
Theorem alerts_never_lost (trace : list event) (w : World) :
  evolves (Sql.flood_alerts (db w)) (Sql.flood_alerts (db (run trace w))).
Proof.
  unfold run. revert w.
  induction trace as [|e trace IH]; intro w; cbn [fold_left].
  - apply evolves_refl.
  - eapply evolves_trans; [apply (step_evolves e w)|apply IH].
Qed.



(** ** The cap along the life of the server *)

Section CapAlongTraces.


End CapAlongTraces.



(** X6: the answer of an inserting cycle tells whether alerts were
    demoted.  With distinct ids and no fault, a cycle that inserts finds
    [n] active alerts: from [n = 2] on it answers "New alert recorded.
    Older alerts marked as past." and leaves exactly two active alerts;
    below, it answers "Flood alert recorded successfully." and leaves
    [n + 1]. *)
Theorem eviction_is_reported
  (w : World) (now : Z) (r : SensorReading.t) (rest : list SensorReading.t)
  (l : string) :
  faults w = [] ->
  ids_fresh (db w) ->
  Sql.select_latest_reading (db w) = r :: rest ->
  Num.gt (SensorReading.distance r) 76.2 = false ->
  Severity.alertLevel (Num.toFixed2 (SensorReading.distance r)) = Some l ->
  Sql.select_duplicate (SensorReading.reading_time r) l (db w) = [] ->
  let n := active_count (db w) in
  let after := active_count (db (snd (Evaluate.POST now w))) in
  ((2 <= n)%nat ->
   fst (Evaluate.POST now w)
   = Return (Response.json true
               "New alert recorded. Older alerts marked as past.")
   /\ after = 2%nat)
  /\ ((n < 2)%nat ->
      fst (Evaluate.POST now w)
      = Return (Response.json true "Flood alert recorded successfully.")
      /\ after = S n).
Proof.
  intros Hf Hfresh Hlatest Hadv Hl Hdup n after.
  pose proof (evaluate_enforces_cap w now r rest l Hf Hfresh Hlatest Hadv Hl
                Hdup) as [Hcount _].
  cbv zeta in Hcount. fold after in Hcount.
  pose proof (POST_adverse_insert w now r rest Hf Hlatest l Hadv Hl Hdup) as HP.
  cbv zeta in HP. rewrite select_active_ids_length in HP.
  assert (active_count (Evaluate.insert_new_alert l r now (db w)) = S n) as Hn.
  { unfold n, active_count.
    cbn [Evaluate.insert_new_alert Sql.insert_alert Sql.flood_alerts].
    rewrite filter_app, length_app. cbn. lia. }
  rewrite Hn in HP, Hcount.
  split; intro Hcmp.
  - assert ((2 <? S n)%nat = true) as E by (apply Nat.ltb_lt; lia).
    rewrite E in HP. rewrite HP. split; [reflexivity|lia].
  - assert ((2 <? S n)%nat = false) as E by (apply Nat.ltb_ge; lia).
    rewrite E in HP. rewrite HP. split; [reflexivity|lia].
Qed.

Lemma eviction_is_reported_witness :
  let w := sample_world 50 None [] in
  (faults w = [] /\ ids_fresh (db w)
   /\ Sql.select_latest_reading (db w) = [sample_reading 50 0]
   /\ Num.gt (SensorReading.distance (sample_reading 50 0)) 76.2 = false
   /\ Severity.alertLevel
        (Num.toFixed2 (SensorReading.distance (sample_reading 50 0)))
      = Some "Danger"%string
   /\ Sql.select_duplicate
        (SensorReading.reading_time (sample_reading 50 0)) "Danger" (db w) = [])
  /\ fst (Evaluate.POST 1000 w)
     = Return (Response.json true "Flood alert recorded successfully.").
Proof.
  cbv zeta.
  assert (ids_fresh (db (sample_world 50 None []))) as Hfresh.
  { split; [constructor|]. intros a []. }
  assert (Num.gt (SensorReading.distance (sample_reading 50 0)) 76.2 = false)
    as Hadv by (vm_compute; reflexivity).
  assert (Severity.alertLevel
            (Num.toFixed2 (SensorReading.distance (sample_reading 50 0)))
          = Some "Danger"%string) as Hl by (vm_compute; reflexivity).
  split;
    [split; [reflexivity|]; split; [exact Hfresh|];
     split; [reflexivity|]; split; [exact Hadv|];
     split; [exact Hl|reflexivity]|].
  destruct (eviction_is_reported (sample_world 50 None []) 1000
              (sample_reading 50 0) [] "Danger" eq_refl Hfresh eq_refl Hadv Hl
              eq_refl) as [_ H].
  apply H. cbn. lia.
Defined.

(** ** POST /readings: partial failures and what it never does *)

Section PostFacts.

Lemma POST_well_typed (now : Z) (parsedData : Json.value)
  (distance floodLevel : Q) (status : string) (w : World) :
  well_typed parsedData distance floodLevel status ->
  Ingest.POST now (Return parsedData) w
  = Ingest.store_reading distance floodLevel status now w.
Proof.
  unfold well_typed, Ingest.POST. intros ->. reflexivity.
Qed.

Lemma upper_lower_ascii (c : ascii) :
  Str.upper_ascii (Str.lower_ascii c) = Str.upper_ascii c.
Proof.
  destruct c as [[] [] [] [] [] [] [] []]; vm_compute; reflexivity.
Qed.

Lemma toUpperCase_toLowerCase (s : string) :
  Str.toUpperCase (Str.toLowerCase s) = Str.toUpperCase s.
Proof.
  unfold Str.toLowerCase, Str.toUpperCase.
  induction s as [|c s IH]; [reflexivity|].
  cbn [Str.map]. now rewrite upper_lower_ascii, IH.
Qed.

End PostFacts.

(** X7: a 500 from POST /readings does not mean that nothing was stored.
    When the reading is stored and the INSERT of its alert fails, the
    handler answers 500 with the error of that call, the reading stays in
    [sensor_readings] and no alert is added. *)
Theorem alert_insert_failure_keeps_reading
  (w : World) (now : Z) (parsedData : Json.value) (distance floodLevel : Q)
  (status e : string) (pending : list (option string)) :
  well_typed parsedData distance floodLevel status ->
  Ingest.is_adverse_tag status = true ->
  faults w = None :: None :: Some e :: pending ->
  let w' := snd (Ingest.POST now (Return parsedData) w) in
  fst (Ingest.POST now (Return parsedData) w) = Return (Ingest.server_error e)
  /\ Response.http_status (Ingest.server_error e) = 500
  /\ Sql.sensor_readings (db w')
     = Sql.sensor_readings (db w)
       ++ [SensorReading.mk (Sql.sensor_readings_auto_increment (db w))
             distance floodLevel status now]
  /\ Sql.flood_alerts (db w') = Sql.flood_alerts (db w)
  /\ faults w' = pending.
Proof.
  intros Hwt Htag Hf. cbv zeta. rewrite (POST_well_typed _ _ _ _ _ _ Hwt).
  destruct w as [d t fs]. cbn in Hf. subst fs.
  unfold Ingest.store_reading, try_catch, bind, execute, storage_call, ret.
  cbn [db firstSafeDetectedAt faults hd tl fst snd Sql.insert_reading].
  rewrite Htag.
  cbn [db firstSafeDetectedAt faults hd tl fst snd Sql.sensor_readings
       Sql.flood_alerts].
  repeat split.
Qed.

Lemma alert_insert_failure_keeps_reading_witness :
  let w := mkWorld (empty_db Sql.binary) None
             [None; None; Some "Table 'flood_alerts' is full"%string] in
  let body := Json.object [("distance", Json.number 20);
                           ("floodLevel", Json.number 56.2);
                           ("status", Json.str "CRITICAL")]%string in
  (well_typed body 20 56.2 "CRITICAL"
   /\ Ingest.is_adverse_tag "CRITICAL" = true
   /\ faults w = [None; None; Some "Table 'flood_alerts' is full"%string])
  /\ Sql.sensor_readings (db (snd (Ingest.POST 5 (Return body) w)))
     = [SensorReading.mk 1 20 56.2 "CRITICAL" 5]
  /\ Sql.flood_alerts (db (snd (Ingest.POST 5 (Return body) w))) = [].
Proof.
  cbv zeta.
  assert (well_typed
            (Json.object [("distance", Json.number 20);
                          ("floodLevel", Json.number 56.2);
                          ("status", Json.str "CRITICAL")]%string)
            20 56.2 "CRITICAL") as Hwt by reflexivity.
  assert (Ingest.is_adverse_tag "CRITICAL" = true) as Htag
    by (vm_compute; reflexivity).
  split; [split; [exact Hwt|]; split; [exact Htag|reflexivity]|].
  destruct (alert_insert_failure_keeps_reading
              (mkWorld (empty_db Sql.binary) None
                 [None; None; Some "Table 'flood_alerts' is full"%string])
              5 _ 20 56.2 "CRITICAL" _ [] Hwt Htag eq_refl)
    as (_ & _ & Hr & Ha & _).
  split; [exact Hr|exact Ha].
Defined.

(** X8: POST /readings only appends.  Whatever the body and the faults, it
    leaves the timer alone, keeps every stored reading and alert as it is,
    adds at most one reading, and adds an alert only together with a
    reading. *)
Theorem post_is_append_only (now : Z) (request_json : outcome Json.value)
  (w : World) :
  let w' := snd (Ingest.POST now request_json w) in
  firstSafeDetectedAt w' = firstSafeDetectedAt w
  /\ exists new_readings new_alerts,
       Sql.sensor_readings (db w') = Sql.sensor_readings (db w) ++ new_readings
       /\ Sql.flood_alerts (db w') = Sql.flood_alerts (db w) ++ new_alerts
       /\ (List.length new_alerts <= List.length new_readings <= 1)%nat.
Proof.
  cbv zeta.
  destruct (POST_cases now request_json w)
    as [(e & _ & ->) | [(e & _ & ->) | [(p & d & f & s & Hreq & Hwt & ->)
                                      | (p & _ & _ & _ & ->)]]];
    cbn [snd];
    try (split; [reflexivity|]; exists [], []; rewrite !app_nil_r;
         repeat split; cbn; lia).
  pose proof (store_reading_cases d f s now w) as H. cbv zeta in H.
  destruct (Ingest.store_reading d f s now w) as [out w'].
  destruct H as (Ht & [(e & _ & _ & [Hdb|Hdb]) | (_ & Hdb)]);
    cbn [snd]; rewrite Hdb; (split; [exact Ht|]).
  - exists [], []. rewrite !app_nil_r. repeat split; cbn; lia.
  - eexists; exists [].
    cbn [Sql.insert_reading snd Sql.flood_alerts Sql.sensor_readings].
    split; [reflexivity|]. split; [now rewrite app_nil_r|]. cbn. lia.
  - destruct (Ingest.is_adverse_tag s);
      cbn [Sql.insert_reading Sql.insert_alert snd Sql.flood_alerts
           Sql.sensor_readings].
    + do 2 eexists.
      split; [reflexivity|]. split; [reflexivity|]. cbn. lia.
    + eexists; exists [].
      split; [reflexivity|]. split; [now rewrite app_nil_r|]. cbn. lia.
Qed.

(** X9: the status tag is matched without regard to letter case: two tags
    that differ only in the case of their letters pass or fail the test of
    the ingest path together and select the same message, so they give the
    same alert. *)
Theorem tag_case_is_ignored (s t : string) :
  Str.toLowerCase s = Str.toLowerCase t ->
  Ingest.is_adverse_tag s = Ingest.is_adverse_tag t
  /\ Ingest.alert_message s = Ingest.alert_message t.
Proof.
  intro H.
  assert (Str.toUpperCase s = Str.toUpperCase t) as E.
  { rewrite <- (toUpperCase_toLowerCase s), <- (toUpperCase_toLowerCase t).
    now rewrite H. }
  unfold Ingest.is_adverse_tag, Ingest.alert_message. rewrite E. now split.
Qed.

Lemma tag_case_is_ignored_witness :
  Str.toLowerCase "Danger" = Str.toLowerCase "dANGER"
  /\ Ingest.is_adverse_tag "Danger" = Ingest.is_adverse_tag "dANGER"
  /\ Ingest.alert_message "Danger" = Ingest.alert_message "dANGER".
Proof.
  assert (Str.toLowerCase "Danger" = Str.toLowerCase "dANGER") as H
    by (vm_compute; reflexivity).
  split; [exact H|]. exact (tag_case_is_ignored "Danger" "dANGER" H).
Defined.

(** ** GET /api/current-sensor-data *)

Section CurrentSensorDataFacts.

Lemma GET_ok (w : World) :
  hd None (faults w) = None ->
  hd None (tl (faults w)) = None ->
  CurrentSensorData.GET w =
    (Return
       (CurrentSensorData.mkResponse 200 true "Latest sensor data retrieved."
          None
          (Some
             match CurrentSensorData.select_latest_columns (db w) with
             | r :: _ =>
                 CurrentSensorData.mkReading
                   (CurrentSensorData.to_feet (CurrentSensorData.distance r))
                   (CurrentSensorData.to_feet (CurrentSensorData.flood_level r))
                   (CurrentSensorData.status r)
                   (CurrentSensorData.reading_time r)
             | [] => CurrentSensorData.no_data
             end)),
     mkWorld (db w) (firstSafeDetectedAt w) (tl (tl (faults w)))).
Proof.
  intros H1 H2.
  unfold CurrentSensorData.GET, try_catch, bind, query, storage_call, ret.
  cbn [db firstSafeDetectedAt faults fst snd]. rewrite H1.
  cbn [db firstSafeDetectedAt faults fst snd]. rewrite H2.
  cbn [db firstSafeDetectedAt faults fst snd].
  destruct (CurrentSensorData.select_latest_columns (db w)); reflexivity.
Qed.

Lemma GET_failed (w : World) (e : string) :
  hd None (faults w) = Some e
  \/ (hd None (faults w) = None /\ hd None (tl (faults w)) = Some e) ->
  fst (CurrentSensorData.GET w) =
    Return (CurrentSensorData.mkResponse 500 false
              "Internal Server Error during data retrieval." (Some e) None).
Proof.
  unfold CurrentSensorData.GET, try_catch, bind, query, storage_call, ret.
  cbn [db firstSafeDetectedAt faults fst snd].
  intros [H | [H1 H2]].
  - rewrite H. reflexivity.
  - rewrite H1. cbn [db firstSafeDetectedAt faults fst snd]. rewrite H2.
    reflexivity.
Qed.


End CurrentSensorDataFacts.





(** X12: with an empty readings table the handler still answers 200 and
    success true, with the record "No Data" whose measurements and reading
    time are null; when the connection or the query fails it answers 500,
    success false, with the message of the error. *)
Theorem current_sensor_data_edge_cases (w : World) :
  (hd None (faults w) = None ->
   hd None (tl (faults w)) = None ->
   Sql.sensor_readings (db w) = [] ->
   fst (CurrentSensorData.GET w)
   = Return
       (CurrentSensorData.mkResponse 200 true "Latest sensor data retrieved."
          None
          (Some (CurrentSensorData.mkReading None None "No Data" None))))
  /\ (forall e,
        hd None (faults w) = Some e
        \/ (hd None (faults w) = None /\ hd None (tl (faults w)) = Some e) ->
        fst (CurrentSensorData.GET w)
        = Return
            (CurrentSensorData.mkResponse 500 false
               "Internal Server Error during data retrieval." (Some e) None)).
Proof.
  split.
  - intros H1 H2 Hempty. rewrite (GET_ok w H1 H2). cbn [fst].
    unfold CurrentSensorData.select_latest_columns.
    apply select_latest_reading_nil in Hempty. rewrite Hempty. reflexivity.
  - intros e H. now apply GET_failed.
Qed.

Lemma current_sensor_data_edge_cases_witness :
  let w := mkWorld (empty_db Sql.binary) None [] in
  (hd None (faults w) = None /\ hd None (tl (faults w)) = None
   /\ Sql.sensor_readings (db w) = [])
  /\ fst (CurrentSensorData.GET w)
     = Return
         (CurrentSensorData.mkResponse 200 true
            "Latest sensor data retrieved." None
            (Some (CurrentSensorData.mkReading None None "No Data" None))).
Proof.
  cbv zeta. split; [repeat split|].
  exact (proj1 (current_sensor_data_edge_cases
                  (mkWorld (empty_db Sql.binary) None []))
               eq_refl eq_refl eq_refl).
Defined.

(** ** GET /api/flood_alerts and the alerts table *)

Section ListingFacts.

Variable created_after : string -> Z -> bool.

Lemma listing_ok (since : option string) (w : World) :
  hd None (faults w) = None ->
  FloodAlertsRoute.GET created_after since w =
    (Return
       (FloodAlertsRoute.mkResponse 200 true
          (Some (match since with
                 | Some s =>
                     if FloodAlertsRoute.truthy since
                     then FloodAlertsRoute.select_since created_after s (db w)
                     else FloodAlertsRoute.select_all (db w)
                 | None => FloodAlertsRoute.select_all (db w)
                 end)) None),
     mkWorld (db w) (firstSafeDetectedAt w) (tl (faults w))).
Proof.
  intro H.
  unfold FloodAlertsRoute.GET, try_catch, bind, query, storage_call, ret.
  cbn [db firstSafeDetectedAt faults fst snd]. rewrite H.
  cbn [db firstSafeDetectedAt faults fst snd].
  destruct since as [s|]; [destruct (FloodAlertsRoute.truthy (Some s))|];
    reflexivity.
Qed.

Lemma listing_failed (since : option string) (w : World) (e : string) :
  hd None (faults w) = Some e ->
  FloodAlertsRoute.GET created_after since w =
    (Return (FloodAlertsRoute.mkResponse 500 false None
               (Some "Failed to fetch flood alerts"%string)),
     mkWorld (db w) (firstSafeDetectedAt w) (tl (faults w))).
Proof.
  intro H.
  unfold FloodAlertsRoute.GET, try_catch, bind, query, storage_call, ret.
  cbn [db firstSafeDetectedAt faults fst snd]. rewrite H. reflexivity.
Qed.

End ListingFacts.

(** X13: the listing is complete and ordered.  When the query succeeds the
    handler answers 200 with rows sorted by created_at, most recent first;
    without a [since] parameter, or with an empty one, the rows are all the
    alerts of the table; with a [since] parameter they are exactly the alerts
    that pass the test [created_at > since] of the database. *)
Theorem alerts_listing_complete_and_sorted
  (created_after : string -> Z -> bool) (since : option string) (w : World) :
  hd None (faults w) = None ->
  exists rows,
    fst (FloodAlertsRoute.GET created_after since w)
    = Return (FloodAlertsRoute.mkResponse 200 true (Some rows) None)
    /\ StronglySorted (desc_by FloodAlert.created_at) rows
    /\ ((since = None \/ since = Some ""%string) ->
        Permutation rows (Sql.flood_alerts (db w)))
    /\ (forall s, since = Some s -> s <> ""%string ->
        Permutation rows
          (filter (fun a => created_after s (FloodAlert.created_at a))
                  (Sql.flood_alerts (db w)))).
Proof.
  intro H. rewrite (listing_ok created_after since w H). cbn [fst].
  eexists. split; [reflexivity|].
  destruct since as [s|].
  - unfold FloodAlertsRoute.truthy.
    destruct (String.eqb s "") eqn:E; cbn [negb].
    + apply String.eqb_eq in E. subst s.
      split; [apply order_by_desc_sorted|].
      split; [intros _; apply order_by_desc_perm|].
      intros s Hs Hne. injection Hs as <-. congruence.
    + apply String.eqb_neq in E.
      split; [apply order_by_desc_sorted|].
      split; [intros [Hn|Hs]; [discriminate|injection Hs as ->; congruence]|].
      intros s' Hs _. injection Hs as <-. apply order_by_desc_perm.
  - split; [apply order_by_desc_sorted|].
    split; [intros _; apply order_by_desc_perm|]. discriminate.
Qed.

Lemma alerts_listing_complete_and_sorted_witness :
  let w := snd (Evaluate.POST 1000 (sample_world 70 None [])) in
  hd None (faults w) = None
  /\ exists rows,
       fst (FloodAlertsRoute.GET (fun _ _ => true) None w)
       = Return (FloodAlertsRoute.mkResponse 200 true (Some rows) None)
       /\ Permutation rows (Sql.flood_alerts (db w)).
Proof.
  cbv zeta. split; [reflexivity|].
  destruct (alerts_listing_complete_and_sorted (fun _ _ => true) None
              (snd (Evaluate.POST 1000 (sample_world 70 None []))) eq_refl)
    as (rows & H & _ & Hall & _).
  exists rows. split; [exact H|]. apply Hall. now left.
Defined.

(** X14: the three GET handlers only read.  Whatever the faults and the
    parameters, GET /api/current-sensor-data, GET /api/flood_alerts and
    GET /api/flood leave the store and the timer exactly as they were. *)
Theorem reads_change_nothing
  (created_after : string -> Z -> bool) (since : option string)
  (flood_records : list FloodRecord.t) (w : World) :
  (db (snd (CurrentSensorData.GET w)) = db w
   /\ firstSafeDetectedAt (snd (CurrentSensorData.GET w))
      = firstSafeDetectedAt w)
  /\ (db (snd (FloodAlertsRoute.GET created_after since w)) = db w
      /\ firstSafeDetectedAt (snd (FloodAlertsRoute.GET created_after since w))
         = firstSafeDetectedAt w)
  /\ (db (snd (FloodRecords.GET flood_records w)) = db w
      /\ firstSafeDetectedAt (snd (FloodRecords.GET flood_records w))
         = firstSafeDetectedAt w).
Proof.
  split; [|split].
  - unfold CurrentSensorData.GET, try_catch, bind, query, storage_call, ret.
    cbn [db firstSafeDetectedAt faults fst snd].
    destruct (hd None (faults w));
      cbn [db firstSafeDetectedAt faults fst snd]; [now split|].
    destruct (hd None (tl (faults w)));
      cbn [db firstSafeDetectedAt faults fst snd]; now split.
  - unfold FloodAlertsRoute.GET, try_catch, bind, query, storage_call, ret.
    cbn [db firstSafeDetectedAt faults fst snd].
    destruct (hd None (faults w));
      cbn [db firstSafeDetectedAt faults fst snd]; now split.
  - unfold FloodRecords.GET, try_catch, bind, query, storage_call, ret.
    cbn [db firstSafeDetectedAt faults fst snd].
    destruct (hd None (faults w));
      cbn [db firstSafeDetectedAt faults fst snd]; now split.
Qed.

(** ** The alerts table of the dashboard *)

Section TableFacts.

Variable created_after : string -> Z -> bool.


End TableFacts.



(** X16: the error view of the table is permanent.  Once a poll has left
    an error message, every later render shows an error, whatever the later
    polls return: a poll that succeeds refreshes the alerts but never clears
    the message. *)
Theorem error_view_is_sticky (created_after : string -> Z -> bool)
  (network : option string) (s : FloodAlertsTable.state) (w : World)
  (message : string) :
  FloodAlertsTable.render s = FloodAlertsTable.Failed message ->
  exists message',
    FloodAlertsTable.render
      (fst (FloodAlertsTable.fetchAlerts created_after network s w))
    = FloodAlertsTable.Failed message'.
Proof.
  unfold FloodAlertsTable.render. intro H.
  destruct (FloodAlertsTable.loading s); [discriminate|].
  destruct (FloodAlertsTable.error s) as [m|] eqn:Em; [|discriminate].
  destruct (String.eqb m "") eqn:Eq; [discriminate|].
  unfold FloodAlertsTable.fetchAlerts.
  destruct network as [e|]; cbn [fst FloodAlertsTable.loading
                                  FloodAlertsTable.error String.eqb];
    [eexists; reflexivity|].
  destruct (FloodAlertsRoute.GET created_after None w) as [[resp|e] w'].
  - destruct (FloodAlertsRoute.success resp);
      [destruct (FloodAlertsRoute.data resp)|];
      cbn [fst FloodAlertsTable.loading FloodAlertsTable.error String.eqb];
      rewrite ?Em, ?Eq; eexists; reflexivity.
  - cbn [fst FloodAlertsTable.loading FloodAlertsTable.error String.eqb].
    eexists; reflexivity.
Qed.

Lemma error_view_is_sticky_witness :
  let s := FloodAlertsTable.mkState [] false
             (Some "Failed to fetch flood alerts."%string) in
  FloodAlertsTable.render s
  = FloodAlertsTable.Failed "Failed to fetch flood alerts."
  /\ exists message',
       FloodAlertsTable.render
         (fst (FloodAlertsTable.fetchAlerts (fun _ _ => true) None s
                 (sample_world 70 None [])))
       = FloodAlertsTable.Failed message'.
Proof.
  cbv zeta. split; [reflexivity|].
  exact (error_view_is_sticky (fun _ _ => true) None
           (FloodAlertsTable.mkState [] false
              (Some "Failed to fetch flood alerts."%string))
           (sample_world 70 None []) "Failed to fetch flood alerts." eq_refl).
Defined.

(** X17: what a poll shows.  From a state without error, a poll answered
    by a working store renders the table: the Active section holds exactly
    the active alerts of the store and the Past section the others, each most
    recent first.  A poll answered while the store fails shows "Unexpected API
    response format." and keeps the alerts of the previous poll; only a
    request that does not reach the server shows "Failed to fetch flood
    alerts.". *)
Theorem poll_outcomes (created_after : string -> Z -> bool)
  (s : FloodAlertsTable.state) (w : World) :
  FloodAlertsTable.error s = None ->
  (hd None (faults w) = None ->
   exists active past,
     FloodAlertsTable.render
       (fst (FloodAlertsTable.fetchAlerts created_after None s w))
     = FloodAlertsTable.Table active past
     /\ Permutation active
          (filter FloodAlert.is_active (Sql.flood_alerts (db w)))
     /\ Permutation past
          (filter (fun a => negb (FloodAlert.is_active a))
                  (Sql.flood_alerts (db w)))
     /\ StronglySorted (desc_by FloodAlert.created_at) active
     /\ StronglySorted (desc_by FloodAlert.created_at) past)
  /\ (forall e, hd None (faults w) = Some e ->
      fst (FloodAlertsTable.fetchAlerts created_after None s w)
      = FloodAlertsTable.mkState (FloodAlertsTable.alerts s) false
          (Some "Unexpected API response format."%string))
  /\ (forall e,
      fst (FloodAlertsTable.fetchAlerts created_after (Some e) s w)
      = FloodAlertsTable.mkState (FloodAlertsTable.alerts s) false
          (Some "Failed to fetch flood alerts."%string)).
Proof.
  intro Herr. split; [|split].
  - intro H. unfold FloodAlertsTable.fetchAlerts.
    rewrite (listing_ok created_after None w H).
    cbn [FloodAlertsRoute.success FloodAlertsRoute.data fst].
    unfold FloodAlertsTable.render.
    cbn [FloodAlertsTable.loading FloodAlertsTable.error
         FloodAlertsTable.alerts]. rewrite Herr.
    do 2 eexists. split; [reflexivity|].
    unfold FloodAlertsRoute.select_all.
    pose proof (order_by_desc_perm FloodAlert.created_at
                  (Sql.flood_alerts (db w))) as Hperm.
    pose proof (order_by_desc_sorted FloodAlert.created_at
                  (Sql.flood_alerts (db w))) as Hsorted.
    assert (forall (p : FloodAlert.t -> bool) l l',
              Permutation l l' -> Permutation (filter p l) (filter p l'))
      as Hfilter.
    { intros p l l' HP. induction HP; cbn [filter].
      - constructor.
      - destruct (p x); [now constructor|assumption].
      - destruct (p x); destruct (p y); try reflexivity; try apply perm_swap.
      - etransitivity; eassumption. }
    assert (forall (p : FloodAlert.t -> bool) l,
              StronglySorted (desc_by FloodAlert.created_at) l ->
              StronglySorted (desc_by FloodAlert.created_at) (filter p l))
      as Hkeep.
    { intros p l Hs. induction Hs as [|x l Hs IH Hx]; cbn [filter];
        [constructor|].
      destruct (p x); [|exact IH]. constructor; [exact IH|].
      rewrite Forall_forall in Hx |- *. intros y Hy.
      apply filter_In in Hy as [Hy _]. now apply Hx. }
    repeat split; auto.
  - intros e H. unfold FloodAlertsTable.fetchAlerts.
    rewrite (listing_failed created_after None w e H). reflexivity.
  - intro e. reflexivity.
Qed.

Lemma poll_outcomes_witness :
  let w := mkWorld (empty_db Sql.binary) None [Some "gone away"%string] in
  FloodAlertsTable.error FloodAlertsTable.initial = None
  /\ FloodAlertsTable.render
       (fst (FloodAlertsTable.fetchAlerts (fun _ _ => true) None
               FloodAlertsTable.initial w))
     = FloodAlertsTable.Failed "Unexpected API response format.".
Proof.
  cbv zeta. split; [reflexivity|].
  destruct (poll_outcomes (fun _ _ => true) FloodAlertsTable.initial
              (mkWorld (empty_db Sql.binary) None [Some "gone away"%string])
              eq_refl) as (_ & H & _).
  rewrite (H "gone away"%string eq_refl). reflexivity.
Defined.

(** ** The callers of the handlers *)

(** X18: the client of the evaluation endpoint tells a failed cycle from a
    successful one although both answer 200: it returns only answers whose
    success flag is set; a cycle that failed on a storage call makes it throw
    "Could not evaluate flood alert: Evaluation failed: Error evaluating
    flood alert.", an empty readings table makes it throw the same with
    "No sensor data found.", and a request that does not reach the server
    makes it throw with the error of the request, the world untouched. *)
Theorem evaluation_client_outcomes (network : option string) (now : Z)
  (w : World) :
  (forall result,
     fst (TableData.evaluateAndRecordFloodAlert network now w) = Return result ->
     network = None
     /\ Response.success result = true
     /\ fst (Evaluate.POST now w) = Return result)
  /\ (forall e,
        fst (Evaluate.POST_body now w) = Throw e ->
        fst (TableData.evaluateAndRecordFloodAlert None now w)
        = Throw "Could not evaluate flood alert: Evaluation failed: Error evaluating flood alert.")
  /\ (hd None (faults w) = None ->
      Sql.sensor_readings (db w) = [] ->
      fst (TableData.evaluateAndRecordFloodAlert None now w)
      = Throw "Could not evaluate flood alert: Evaluation failed: No sensor data found.")
  /\ (forall e,
        TableData.evaluateAndRecordFloodAlert (Some e) now w
        = (Throw ("Could not evaluate flood alert: " ++ e)%string, w)).
Proof.
  unfold TableData.evaluateAndRecordFloodAlert, try_catch, bind, throw, ret.
  split; [|split; [|split]].
  - intro result. destruct network as [e|]; [discriminate|].
    destruct (Evaluate.POST now w) as [[r|e] w']; [|discriminate].
    destruct (Response.success r) eqn:Es; [|discriminate].
    cbn [fst]. intro H. injection H as <-. auto.
  - intros e He. destruct (POST_catch w now) as [_ Hr]. rewrite He in Hr.
    destruct (Evaluate.POST now w) as [out w']. cbn [fst] in Hr. subst out.
    reflexivity.
  - intros Hq Hempty.
    rewrite (POST_empty_readings w now Hq Hempty). reflexivity.
  - intro e. reflexivity.
Qed.

Lemma evaluation_client_outcomes_witness :
  let w := sample_world 50 None [Some "connect ECONNREFUSED"%string] in
  fst (Evaluate.POST_body 0 w) = Throw "connect ECONNREFUSED"
  /\ fst (TableData.evaluateAndRecordFloodAlert None 0 w)
     = Throw "Could not evaluate flood alert: Evaluation failed: Error evaluating flood alert.".
Proof.
  cbv zeta.
  assert (fst (Evaluate.POST_body 0
                 (sample_world 50 None [Some "connect ECONNREFUSED"%string]))
          = Throw "connect ECONNREFUSED") as Hthrow by (vm_compute; reflexivity).
  split; [exact Hthrow|].
  destruct (evaluation_client_outcomes None 0
              (sample_world 50 None [Some "connect ECONNREFUSED"%string]))
    as (_ & H & _).
  exact (H _ Hthrow).
Defined.

(** X19: [getLatestSensorDisplayData] returns null only when the server
    answers with an error: a failing connection or query gives null; with a
    working store the caller always gets a record, which is the "No Data"
    record when the readings table is empty; a request that does not reach
    the server makes it throw "Failed to retrieve sensor data: ...". *)
Theorem display_data_outcomes (w : World) :
  (forall e,
     TableData.getLatestSensorDisplayData (Some e) w
     = (Throw ("Failed to retrieve sensor data: " ++ e)%string, w))
  /\ (forall e,
        hd None (faults w) = Some e
        \/ (hd None (faults w) = None /\ hd None (tl (faults w)) = Some e) ->
        fst (TableData.getLatestSensorDisplayData None w) = Return None)
  /\ (hd None (faults w) = None ->
      hd None (tl (faults w)) = None ->
      exists data,
        fst (TableData.getLatestSensorDisplayData None w) = Return (Some data)
        /\ (Sql.sensor_readings (db w) = [] ->
            data = CurrentSensorData.no_data)).
Proof.
  unfold TableData.getLatestSensorDisplayData, try_catch, bind, throw, ret.
  split; [|split].
  - intro e. reflexivity.
  - intros e H. pose proof (GET_failed w e H) as HG.
    destruct (CurrentSensorData.GET w) as [out w']. cbn [fst] in HG.
    subst out. reflexivity.
  - intros H1 H2. rewrite (GET_ok w H1 H2).
    cbn [CurrentSensorData.http_status CurrentSensorData.success
         CurrentSensorData.data TableData.ok Z.leb Z.compare Pos.compare
         Pos.compare_cont andb negb fst].
    eexists. split; [reflexivity|].
    intro Hempty. apply select_latest_reading_nil in Hempty.
    unfold CurrentSensorData.select_latest_columns. rewrite Hempty.
    reflexivity.
Qed.

Lemma display_data_outcomes_witness :
  let w := mkWorld (empty_db Sql.binary) None [] in
  (hd None (faults w) = None /\ hd None (tl (faults w)) = None
   /\ Sql.sensor_readings (db w) = [])
  /\ fst (TableData.getLatestSensorDisplayData None w)
     = Return (Some CurrentSensorData.no_data).
Proof.
  cbv zeta. split; [repeat split|].
  destruct (display_data_outcomes (mkWorld (empty_db Sql.binary) None []))
    as (_ & _ & H).
  destruct (H eq_refl eq_refl) as (data & Hd & He).
  rewrite Hd, (He eq_refl). reflexivity.
Defined.

(** X20: [fetchCurrentSensorData] never throws: whatever the request and
    the store do, it returns a value, and this value is null exactly when
    the request does not reach the server or a storage call of the handler
    fails. *)
Theorem fetchCurrentSensorData_never_throws (network : option string)
  (w : World) :
  exists result,
    fst (TableData.fetchCurrentSensorData network w) = Return result
    /\ (result = None
        <-> network <> None
            \/ hd None (faults w) <> None
            \/ hd None (tl (faults w)) <> None).
Proof.
  unfold TableData.fetchCurrentSensorData, try_catch, bind, throw, ret.
  destruct network as [e|].
  { exists None. split; [reflexivity|]. split; [|reflexivity].
    intros _. left. discriminate. }
  destruct (hd None (faults w)) as [e1|] eqn:H1.
  { pose proof (GET_failed w e1 (or_introl H1)) as HG.
    destruct (CurrentSensorData.GET w) as [out w']. cbn [fst] in HG.
    subst out. exists None. split; [reflexivity|]. split; [|reflexivity].
    intros _. right. left. discriminate. }
  destruct (hd None (tl (faults w))) as [e2|] eqn:H2.
  { pose proof (GET_failed w e2 (or_intror (conj H1 H2))) as HG.
    destruct (CurrentSensorData.GET w) as [out w']. cbn [fst] in HG.
    subst out. exists None. split; [reflexivity|]. split; [|reflexivity].
    intros _. right. right. discriminate. }
  rewrite (GET_ok w H1 H2).
  cbn [CurrentSensorData.http_status CurrentSensorData.success
       CurrentSensorData.data TableData.ok Z.leb Z.compare Pos.compare
       Pos.compare_cont andb negb fst].
  eexists. split; [reflexivity|]. split; [discriminate|].
  intros [H|[H|H]]; congruence.
Qed.

(** ** GET /api/flood and the analytics page *)

Section AnalyticsFacts.

Lemma not_after_total (a b : FloodRecord.t) :
  FloodRecords.not_after a b = false -> FloodRecords.not_after b a = true.
Proof.
  unfold FloodRecords.not_after.
  rewrite orb_false_iff, andb_false_iff, orb_true_iff, andb_true_iff.
  rewrite !Z.ltb_ge, !Z.ltb_lt, !Z.eqb_neq, !Z.eqb_eq, Z.leb_gt, Z.leb_le.
  lia.
Qed.

Lemma not_after_trans (a b c : FloodRecord.t) :
  FloodRecords.not_after a b = true -> FloodRecords.not_after b c = true ->
  FloodRecords.not_after a c = true.
Proof.
  unfold FloodRecords.not_after.
  rewrite !orb_true_iff, !andb_true_iff.
  rewrite !Z.ltb_lt, !Z.eqb_eq, !Z.leb_le. lia.
Qed.

Lemma insert_asc_perm (x : FloodRecord.t) (l : list FloodRecord.t) :
  Permutation (FloodRecords.insert_asc x l) (x :: l).
Proof.
  induction l as [|y l IH]; cbn [FloodRecords.insert_asc]; [reflexivity|].
  destruct (FloodRecords.not_after x y); [reflexivity|].
  rewrite IH. apply perm_swap.
Qed.

Lemma select_ordered_perm (l : list FloodRecord.t) :
  Permutation (FloodRecords.select_ordered l) l.
Proof.
  unfold FloodRecords.select_ordered.
  induction l as [|x l IH]; cbn [fold_right]; [reflexivity|].
  rewrite insert_asc_perm. now constructor.
Qed.

Lemma insert_asc_sorted (x : FloodRecord.t) (l : list FloodRecord.t) :
  StronglySorted (fun a b => FloodRecords.not_after a b = true) l ->
  StronglySorted (fun a b => FloodRecords.not_after a b = true)
                 (FloodRecords.insert_asc x l).
Proof.
  induction 1 as [|y l Hl IH Hy]; cbn [FloodRecords.insert_asc].
  - constructor; constructor.
  - destruct (FloodRecords.not_after x y) eqn:E.
    + constructor; [now constructor|]. constructor; [exact E|].
      rewrite Forall_forall in Hy |- *. intros z Hz.
      apply (not_after_trans x y z E), Hy, Hz.
    + constructor; [exact IH|].
      rewrite Forall_forall in Hy |- *. intros z Hz.
      apply (Permutation_in _ (insert_asc_perm x l)) in Hz.
      destruct Hz as [<-|Hz]; [now apply not_after_total|now apply Hy].
Qed.

Lemma select_ordered_sorted (l : list FloodRecord.t) :
  StronglySorted (fun a b => FloodRecords.not_after a b = true)
                 (FloodRecords.select_ordered l).
Proof.
  unfold FloodRecords.select_ordered.
  induction l as [|x l IH]; cbn [fold_right]; [constructor|].
  now apply insert_asc_sorted.
Qed.

Lemma sorted_filter {A : Type} (R : A -> A -> Prop) (S : A -> A -> Prop)
  (p : A -> bool) (l : list A) :
  (forall a b, p a = true -> p b = true -> R a b -> S a b) ->
  StronglySorted R l -> StronglySorted S (filter p l).
Proof.
  intros HRS Hs. induction Hs as [|x l Hs IH Hx]; cbn [filter]; [constructor|].
  destruct (p x) eqn:Px; [|exact IH]. constructor; [exact IH|].
  rewrite Forall_forall in Hx |- *. intros y Hy.
  apply filter_In in Hy as [Hy Py]. apply HRS; auto.
Qed.

(** The decimal writing of an integer determines it. *)
Lemma show_inj (a b : Z) : Num.show a = Num.show b -> a = b.
Proof.
  unfold Num.show. intro H.
  assert (forall d,
            exists d', DecimalString.NilZero.int_of_string
                         (DecimalString.NilZero.string_of_int d) = Some d'
                       /\ Z.of_int d' = Z.of_int d) as Hread.
  { intro d.
    destruct d as [[| | | | | | | | | |]|[| | | | | | | | | |]];
      try (exists (Decimal.Pos (Decimal.D0 Decimal.Nil));
           split; reflexivity);
      try (exists (Decimal.Neg (Decimal.D0 Decimal.Nil));
           split; reflexivity);
      (eexists; split;
       [apply DecimalString.NilZero.isi; discriminate|reflexivity]). }
  destruct (Hread (Z.to_int a)) as (da & Ha & Ea).
  destruct (Hread (Z.to_int b)) as (db' & Hb & Eb).
  rewrite H in Ha. rewrite Ha in Hb. injection Hb as <-.
  rewrite DecimalZ.of_to in Ea, Eb. congruence.
Qed.

Lemma floor_half (k : Z) : Qfloor (inject_Z k + (1 # 2)) = k.
Proof.
  apply Z.le_antisymm.
  - apply Z.lt_succ_r. rewrite Zlt_Qlt.
    apply Qle_lt_trans with (inject_Z k + (1 # 2))%Q; [apply Qfloor_le|].
    unfold Z.succ. rewrite inject_Z_plus. change (inject_Z 1) with 1%Q. lra.
  - apply floor_ge_iff. lra.
Qed.

Lemma round_half_away_integer (x : Q) (k : Z) :
  (x == inject_Z k)%Q -> Num.round_half_away x = k.
Proof.
  intro E. unfold Num.round_half_away.
  destruct (Qle_bool 0 x).
  - rewrite (Qfloor_comp _ (inject_Z k + (1 # 2))) by (now rewrite E).
    apply floor_half.
  - rewrite (Qfloor_comp _ (inject_Z (- k) + (1 # 2)))
      by (rewrite E, inject_Z_opp; reflexivity).
    rewrite floor_half. lia.
Qed.

End AnalyticsFacts.

Lemma flood_GET_ok (flood_records : list FloodRecord.t) (w : World) :
  hd None (faults w) = None ->
  FloodRecords.GET flood_records w =
    (Return (FloodRecords.rows 200 (FloodRecords.select_ordered flood_records)),
     mkWorld (db w) (firstSafeDetectedAt w) (tl (faults w))).
Proof.
  intro H. unfold FloodRecords.GET, try_catch, bind, query, storage_call, ret.
  cbn [db firstSafeDetectedAt faults fst snd]. rewrite H. reflexivity.
Qed.

Lemma flood_GET_failed (flood_records : list FloodRecord.t) (w : World)
  (e : string) :
  hd None (faults w) = Some e ->
  FloodRecords.GET flood_records w =
    (Return (FloodRecords.failure 500 "Internal Server Error"%string),
     mkWorld (db w) (firstSafeDetectedAt w) (tl (faults w))).
Proof.
  intro H. unfold FloodRecords.GET, try_catch, bind, query, storage_call, ret.
  cbn [db firstSafeDetectedAt faults fst snd]. rewrite H. reflexivity.
Qed.

Lemma not_after_spec (a b : FloodRecord.t) :
  FloodRecords.not_after a b = true <->
  FloodRecord.year a < FloodRecord.year b
  \/ (FloodRecord.year a = FloodRecord.year b
      /\ FloodRecord.month a <= FloodRecord.month b).
Proof.
  unfold FloodRecords.not_after.
  now rewrite orb_true_iff, andb_true_iff, Z.ltb_lt, Z.eqb_eq, Z.leb_le.
Qed.

(** X21: GET /api/flood answers 200 with every record of the table, each
    once, ordered by year and, within a year, by month; when the query fails
    it answers 500 with the error "Internal Server Error" and no rows. *)
Theorem flood_records_complete_and_ordered
  (flood_records : list FloodRecord.t) (w : World) :
  (hd None (faults w) = None ->
   exists body,
     fst (FloodRecords.GET flood_records w)
     = Return (FloodRecords.rows 200 body)
     /\ Permutation body flood_records
     /\ StronglySorted
          (fun a b =>
             FloodRecord.year a < FloodRecord.year b
             \/ (FloodRecord.year a = FloodRecord.year b
                 /\ FloodRecord.month a <= FloodRecord.month b)) body)
  /\ (forall e, hd None (faults w) = Some e ->
                fst (FloodRecords.GET flood_records w)
                = Return (FloodRecords.failure 500
                            "Internal Server Error"%string)).
Proof.
  split.
  - intro H. exists (FloodRecords.select_ordered flood_records).
    rewrite (flood_GET_ok flood_records w H).
    split; [reflexivity|]. split; [apply select_ordered_perm|].
    pose proof (select_ordered_sorted flood_records) as Hs.
    apply (sorted_filter _ _ (fun _ => true) _
             (fun a b _ _ => proj1 (not_after_spec a b))) in Hs.
    rewrite forallb_filter_id in Hs; [exact Hs|].
    now apply forallb_forall.
  - intros e H. now rewrite (flood_GET_failed flood_records w e H).
Qed.

Lemma flood_records_complete_and_ordered_witness :
  let r23 := FloodRecord.mk 2023 7 "Poblacion"%string 0.5%Q in
  let r24 := FloodRecord.mk 2024 1 "Poblacion"%string 0.9%Q in
  let w := mkWorld (empty_db Sql.case_insensitive) None [] in
  hd None (faults w) = None
  /\ exists body,
       fst (FloodRecords.GET [r24; r23] w)
       = Return (FloodRecords.rows 200 body)
       /\ Permutation body [r24; r23]
       /\ StronglySorted
            (fun a b =>
               FloodRecord.year a < FloodRecord.year b
               \/ (FloodRecord.year a = FloodRecord.year b
                   /\ FloodRecord.month a <= FloodRecord.month b)) body.
Proof.
  intros r23 r24 w. split; [reflexivity|].
  exact (proj1 (flood_records_complete_and_ordered [r24; r23] w) eq_refl).
Defined.

(** X22: whichever year is selected, whatever the table holds and whether or
    not the request succeeds, the records behind the two charts are in
    calendar order: the months never decrease from left to right, and the
    labels and the water levels are read from the same records, so the
    charts have one level per label. *)
Theorem chart_months_in_calendar_order
  (network : option string) (flood_records : list FloodRecord.t) (w : World)
  (selectedYear : string) :
  let floodData := fst (FloodAnalytics.loadFloodData network flood_records w) in
  let filtered := FloodAnalytics.filteredData selectedYear floodData in
  StronglySorted (fun a b => FloodRecord.month a <= FloodRecord.month b)
                 filtered
  /\ List.length (FloodAnalytics.chartLabels filtered)
     = List.length (FloodAnalytics.waterLevels filtered).
Proof.
  intros floodData filtered. split.
  - assert (StronglySorted
              (fun a b => FloodRecords.not_after a b = true) floodData) as Hs.
    { unfold floodData, FloodAnalytics.loadFloodData.
      destruct network as [e|]; [constructor|].
      destruct (hd None (faults w)) as [e|] eqn:H.
      - rewrite (flood_GET_failed flood_records w e H). constructor.
      - rewrite (flood_GET_ok flood_records w H).
        apply select_ordered_sorted. }
    unfold filtered, FloodAnalytics.filteredData.
    apply (sorted_filter _ _ _ _) with (2 := Hs).
    intros a b Ha Hb Hab.
    apply String.eqb_eq in Ha, Hb. rewrite <- Hb in Ha.
    apply show_inj in Ha. apply not_after_spec in Hab. lia.
  - unfold FloodAnalytics.chartLabels, FloodAnalytics.waterLevels.
    now rewrite !length_map.
Qed.

Lemma allNextMonthData_idem (currentMonth : Z) (l : list FloodRecord.t) :
  FloodAnalytics.allNextMonthData currentMonth
    (FloodAnalytics.allNextMonthData currentMonth l)
  = FloodAnalytics.allNextMonthData currentMonth l.
Proof.
  unfold FloodAnalytics.allNextMonthData.
  induction l as [|a l IH]; [reflexivity|]. cbn [filter].
  destruct ((FloodRecord.month a =? FloodAnalytics.nextMonth currentMonth)
            && negb (FloodRecord.year a =? 2025)) eqn:E; [|exact IH].
  cbn [filter]. rewrite E. now f_equal.
Qed.

Lemma confidence_value (n : nat) :
  (0 < n)%nat ->
  Num.round_half_away
    (FloodAnalytics.min (inject_Z (Z.of_nat n) / 5 * 100) 95)
  = Z.min (20 * Z.of_nat n) 95.
Proof.
  intro Hn. unfold FloodAnalytics.min.
  assert (inject_Z (Z.of_nat n) / 5 * 100 == inject_Z (20 * Z.of_nat n))%Q
    as E.
  { rewrite inject_Z_mult. change (inject_Z 20) with 20%Q. field. }
  destruct (Num.le (inject_Z (Z.of_nat n) / 5 * 100) 95) eqn:L.
  - apply le_spec in L. rewrite E in L.
    change 95%Q with (inject_Z 95) in L. rewrite <- Zle_Qle in L.
    rewrite Z.min_l by exact L. now apply round_half_away_integer.
  - assert (~ (inject_Z (Z.of_nat n) / 5 * 100 <= 95)%Q) as L'
      by (rewrite <- le_spec, L; discriminate).
    rewrite E in L'. change 95%Q with (inject_Z 95) in L'.
    rewrite <- Zle_Qle in L'. rewrite Z.min_r by lia.
    now apply round_half_away_integer.
Qed.

(** X23: the prediction uses only the records of the month after the
    current one from years other than 2025.  With no such record both
    outputs are "No data"; with [n] of them the confidence shown is 20 per
    record, capped at 95: "20", "40", "60", "80" and then "95". *)
Theorem prediction_confidence
  (currentMonth : Z) (floodData : list FloodRecord.t) :
  let history := FloodAnalytics.allNextMonthData currentMonth floodData in
  FloodAnalytics.prediction currentMonth floodData
  = FloodAnalytics.prediction currentMonth history
  /\ (history = [] ->
      FloodAnalytics.prediction currentMonth floodData
      = ("No data"%string, "No data"%string))
  /\ (history <> [] ->
      fst (FloodAnalytics.prediction currentMonth floodData)
      = Num.show (Z.min (20 * Z.of_nat (List.length history)) 95)).
Proof.
  intro history. split; [|split].
  - unfold history, FloodAnalytics.prediction. cbv zeta.
    now rewrite allNextMonthData_idem.
  - intro H. unfold FloodAnalytics.prediction. cbv zeta. fold history.
    now rewrite H.
  - intro H. unfold FloodAnalytics.prediction. cbv zeta. fold history.
    destruct history as [|a l]; [contradiction|].
    cbn [List.length Nat.ltb Nat.leb fst].
    now rewrite confidence_value by (cbn; lia).
Qed.

Lemma prediction_confidence_witness :
  let jan24 := FloodRecord.mk 2024 1 "Poblacion"%string 0.9%Q in
  let jan25 := FloodRecord.mk 2025 1 "Poblacion"%string 0.2%Q in
  let jul23 := FloodRecord.mk 2023 7 "Poblacion"%string 0.5%Q in
  (FloodAnalytics.allNextMonthData 6 [jan24; jan25] = []
   /\ FloodAnalytics.prediction 6 [jan24; jan25]
      = ("No data"%string, "No data"%string))
  /\ (FloodAnalytics.allNextMonthData 12 [jan24; jan25; jul23] <> []
      /\ fst (FloodAnalytics.prediction 12 [jan24; jan25; jul23])
         = "20"%string).
Proof.
  intros jan24 jan25 jul23. split.
  - split; [reflexivity|].
    exact (proj1 (proj2 (prediction_confidence 6 [jan24; jan25])) eq_refl).
  - assert (FloodAnalytics.allNextMonthData 12 [jan24; jan25; jul23] <> [])
      as H by (vm_compute; discriminate).
    split; [exact H|].
    exact (proj2 (proj2 (prediction_confidence 12 [jan24; jan25; jul23])) H).
Defined.
